(** * Janus input pipeline: a shallow embedding of [janus/interfaces/input]

    The development follows the Python package module by module:
    [authentication.py] (permission resolution), [validation.py]
    (content-type detection and size accounting), [processing.py] (event
    identifiers), [capabilities.py] (provider selection) and [pipeline.py]
    (the three stage helpers and the result record they update).

    Conventions.
    - A Python [str] is the list of its Unicode code points ([list N]); a
      [bytes] value is a list of octets, also [list N].  String comparison is
      the lexicographic order on code points, as in Python.
    - A Python [set] is a [gset]; [list(s)] is [elements s].  Python leaves the
      iteration order of a set unspecified; every theorem below uses only that
      [elements] enumerates the members without repetition.
    - A Python [dict] with string keys is a [gmap].
    - A Python [float] is a binary64 value ([PrimFloat.float]); its
      arithmetic is the IEEE arithmetic of the primitive operations.
    - A call that may raise is a computation in the monad [Pipeline.M], whose
      outcomes are a returned value or a raised [Exception]. *)

From Stdlib Require Import Strings.String Strings.Ascii NArith ZArith Lia.
From Stdlib Require Floats.PrimFloat Floats.SpecFloat Floats.FloatOps.
From stdpp Require Import base numbers option list strings gmap sets sorting lexico.

Local Open Scope N_scope.

(** ** Python values *)

Abbreviation pystr := (list N).

(** [py "abc"] is the Python literal ["abc"] (ASCII source text). *)
Definition py (s : string) : pystr := N_of_ascii <$> list_ascii_of_string s.

(** [s.startswith(pre)] and [s.endswith(suf)]. *)
Definition startswith (s pre : pystr) : bool := bool_decide (pre `prefix_of` s).
Definition endswith (s suf : pystr) : bool := bool_decide (suf `suffix_of` s).

(** [s[:-n]] for a literal [n > 0]: everything but the last [n] items. *)
Definition slice_drop_last (n : nat) (s : pystr) : pystr := take (length s - n)%nat s.

(** [s[:n]]. *)
Definition slice_first (n : nat) (s : pystr) : pystr := take n s.

(** The order used by [<] on [str]: lexicographic on code points. *)
Definition str_lt : relation pystr := lexico.
Definition str_le (a b : pystr) : Prop := a = b ∨ str_lt a b.

#[global] Instance str_lt_po : StrictOrder str_lt.
Proof. unfold str_lt. apply _. Qed.

#[global] Instance str_lt_trichotomy : TrichotomyT str_lt.
Proof. unfold str_lt. apply _. Defined.

#[global] Instance str_le_dec a b : Decision (str_le a b).
Proof.
  refine (match trichotomyT str_lt a b with
          | inleft (left H) => left _
          | inleft (right H) => left _
          | inright H => right _
          end); unfold str_le.
  - by right.
  - by left.
  - intros [->|Hlt].
    + by apply (irreflexivity str_lt b).
    + apply (irreflexivity str_lt b). by trans a.
Defined.

(** [sorted(l)] on a list of strings. *)
Definition sorted (l : list pystr) : list pystr := merge_sort str_le l.

(** ** authentication.py *)
Module Authentication.

(** The comprehension [[p for p in target_perms if p.startswith(f"{prefix}.")]]. *)
Definition matching (prefix : pystr) (target_perms : list pystr) : list pystr :=
  filter (λ p, Is_true (startswith p (prefix ++ py "."))) target_perms.

(** The [for perm in wildcard_perms] loop of [_expand_wildcards], with the
    accumulator [expanded] made explicit. *)
Fixpoint expand_loop (wildcard_perms target_perms expanded : list pystr) : list pystr :=
  match wildcard_perms with
  | [] => expanded
  | perm :: rest =>
      if endswith perm (py ".*") then
        let prefix := slice_drop_last 2 perm in
        expand_loop rest target_perms (expanded ++ matching prefix target_perms)
      else
        expand_loop rest target_perms (expanded ++ [perm])
  end.

(** [PermissionResolver._expand_wildcards]. *)
Definition _expand_wildcards (wildcard_perms target_perms : list pystr) : list pystr :=
  let expanded := expand_loop wildcard_perms target_perms [] in
  elements (list_to_set expanded : gset pystr).

(** [PermissionResolver.compute_final_permissions]. *)
Definition compute_final_permissions
    (credential_permissions user_permissions : list pystr) : list pystr :=
  let expanded_credential_perms :=
    _expand_wildcards credential_permissions user_permissions in
  let final_perms :=
    elements ((list_to_set expanded_credential_perms : gset pystr)
                ∩ list_to_set user_permissions) in
  sorted final_perms.

(** The algorithm as the specification words it, on lists: a wildcard entry
    [X.*] becomes the user permissions with prefix [X.], any other entry is
    kept, the union is intersected with the user permissions, and the result
    is sorted and deduplicated. *)
Definition strip_wildcard (c : pystr) : option pystr :=
  match reverse c with
  | star :: dot :: rev_x =>
      if decide (star = 42 ∧ dot = 46) then Some (reverse rev_x) else None
  | _ => None
  end.

Definition spec_expand_entry (user_permissions : list pystr) (c : pystr) : list pystr :=
  match strip_wildcard c with
  | Some x => filter (λ p, (x ++ py ".") `prefix_of` p) user_permissions
  | None => [c]
  end.

Fixpoint spec_insert (p : pystr) (l : list pystr) : list pystr :=
  match l with
  | [] => [p]
  | q :: l' =>
      if decide (p = q) then l
      else if decide (str_lt p q) then p :: l
      else q :: spec_insert p l'
  end.

Definition spec_final_permissions
    (credential_permissions user_permissions : list pystr) : list pystr :=
  let expanded := credential_permissions ≫= spec_expand_entry user_permissions in
  let common := filter (λ p, p ∈ user_permissions) expanded in
  foldr spec_insert [] common.

(** Membership in the wildcard expansion of a credential list, as a
    predicate on permissions. *)
Definition in_expansion (credential_permissions user_permissions : list pystr)
    (p : pystr) : Prop :=
  ∃ c, c ∈ credential_permissions ∧
    ((∃ x, c = x ++ py ".*" ∧ p ∈ user_permissions ∧ (x ++ py ".") `prefix_of` p)
     ∨ ((∀ x, c ≠ x ++ py ".*") ∧ p = c)).

(** The wildcard claim as worded, for a credential list holding [x.*]:
    the entry matches only user permissions that strictly extend [x.]; the
    bare [x] is in the result only as a non-wildcard credential entry that
    the user also holds; and [x.*] itself does not reach the result through
    its own expansion. *)
Definition wildcard_claim_as_worded (x : pystr) (cred user : list pystr) : Prop :=
  (x ++ py ".*") ∈ cred →
  (∀ p, p ∈ matching x user → ∃ y, y ≠ [] ∧ p = x ++ py "." ++ y)
  ∧ (x ∈ compute_final_permissions cred user →
     x ∈ cred ∧ (∀ y, x ≠ y ++ py ".*") ∧ x ∈ user)
  ∧ ¬ ((x ++ py ".*") ∈ matching x user
       ∧ (x ++ py ".*") ∈ compute_final_permissions cred user).

End Authentication.

(** ** Values, exceptions and results shared by the remaining modules *)

(** The values a transport hands to the pipeline ([Any] in the annotations):
    JSON-like data, strings and byte buffers. *)
#[warnings="-register-all"]
Inductive PyVal : Type :=
  | PyNone
  | PyBool (b : bool)
  | PyInt (z : Z)
  | PyStr (s : pystr)
  | PyBytes (b : list N)
  | PyList (l : list PyVal)
  | PyDict (d : gmap pystr PyVal).

(** An exception instance: its class name and [str(e)]. *)
Record PyExc : Type := mkExc { exc_class : pystr; exc_str : pystr }.

Definition AttributeError (msg : string) : PyExc := mkExc (py "AttributeError") (py msg).
Definition TypeError (msg : string) : PyExc := mkExc (py "TypeError") (py msg).
Definition UnicodeEncodeError (msg : string) : PyExc := mkExc (py "UnicodeEncodeError") (py msg).
Definition IndexError (msg : string) : PyExc := mkExc (py "IndexError") (py msg).
Definition ValueError (msg : string) : PyExc := mkExc (py "ValueError") (py msg).
Definition OverflowError (msg : string) : PyExc := mkExc (py "OverflowError") (py msg).

(** [type(v).__name__]. *)
Definition py_type_name (v : PyVal) : pystr :=
  match v with
  | PyNone => py "NoneType"
  | PyBool _ => py "bool"
  | PyInt _ => py "int"
  | PyStr _ => py "str"
  | PyBytes _ => py "bytes"
  | PyList _ => py "list"
  | PyDict _ => py "dict"
  end.

(** The [AttributeError] of [v.attr] for a value without that attribute. *)
Definition no_attribute (v : PyVal) (attr : string) : PyExc :=
  mkExc (py "AttributeError")
    (py "'" ++ py_type_name v ++ py "' object has no attribute '" ++ py attr ++ py "'").

(** The outcome of evaluating an expression: a value, or a raised exception.
    The exceptions are instances of [Exception], which is what the handlers
    of the package ([except Exception]) catch; interpreter signals outside
    that class (cancellation, keyboard interrupt, exit) are not faults of a
    collaborator and are not modelled. *)
Inductive Outcome (A : Type) : Type :=
  | Returned (a : A)
  | Raised (e : PyExc).
Arguments Returned {A} a.
Arguments Raised {A} e.

#[global] Instance outcome_ret : MRet Outcome := λ A a, Returned a.
#[global] Instance outcome_bind : MBind Outcome := λ A B k o,
  match o with
  | Returned a => k a
  | Raised e => Raised e
  end.

#[global] Instance outcome_fmap : FMap Outcome := λ A B f o,
  match o with
  | Returned a => Returned (f a)
  | Raised e => Raised e
  end.

(** Modelled from the spec: the [Result] type of [janus.core], which is not
    part of the input package.  Every stage "returns a result type
    (success-or-error)"; the code uses [Result.success], [Result.error],
    [is_success], [unwrap] and [unwrap_error]. *)
Inductive Result (T E : Type) : Type :=
  | Success (value : T)
  | Error (error : E).
Arguments Success {T E} value.
Arguments Error {T E} error.

Definition is_success {T E} (r : Result T E) : bool :=
  match r with Success _ => true | Error _ => false end.

(** [key in d] for a dict. *)
Definition py_in {V} (key : pystr) (d : gmap pystr V) : bool :=
  bool_decide (is_Some (d !! key)).

(** ** Floats *)

Abbreviation pyfloat := PrimFloat.float.

Module FloatLiterals.
Import PrimFloat.
(** The float literals and int-to-float conversions the package needs. *)
Definition thousand : float := 1000%float.
Definition one : float := 1%float.
Definition nine_ms : float := 0x1.26e978d4fdf3bp-7%float. (* [0.009] *)
End FloatLiterals.

(** The integer part of a finite float (towards zero); [0] for the values
    that have none. *)
Definition float_trunc (x : pyfloat) : Z :=
  match FloatOps.Prim2SF x with
  | SpecFloat.S754_finite negative m e =>
      let magnitude := Z.shiftl (Zpos m) e in
      if negative then (- magnitude)%Z else magnitude
  | _ => 0%Z
  end.

(** [int(x)] on a float: truncation towards zero; NaN and the infinities
    raise. *)
Definition py_int (x : pyfloat) : Outcome Z :=
  if PrimFloat.is_nan x then
    Raised (ValueError "cannot convert float NaN to integer")
  else if PrimFloat.is_infinity x then
    Raised (OverflowError "cannot convert float infinity to integer")
  else Returned (float_trunc x).

(** [a / b] on ints: the float nearest to the exact quotient. *)
Definition int_true_div (a b : Z) : pyfloat :=
  let exact (z : Z) :=
    match z with
    | Z0 => SpecFloat.S754_zero false
    | Zpos p => SpecFloat.S754_finite false p 0
    | Zneg p => SpecFloat.S754_finite true p 0
    end in
  FloatOps.SF2Prim
    (SpecFloat.SFdiv FloatOps.prec FloatOps.emax (exact a) (exact b)).

(** [td.total_seconds() * 1000] for a [timedelta] of [d] microseconds;
    [total_seconds()] is [d / 10**6]. *)
Definition timedelta_ms (d : Z) : pyfloat :=
  PrimFloat.mul (int_true_div d 1000000) FloatLiterals.thousand.

(** ** validation.py *)
Module Validation.

(** [text.startswith(pre)] where [text] is whatever the mapping holds: only
    a [str] has the method with a [str] argument. *)
Definition py_startswith (text : PyVal) (pre : pystr) : Outcome bool :=
  match text with
  | PyStr s => Returned (startswith s pre)
  | PyBytes _ => Raised (TypeError "startswith first arg must be bytes or a tuple of bytes, not str")
  | _ => Raised (no_attribute text "startswith")
  end.

(** [InputValidator._detect_content_type]. *)
Definition _detect_content_type (normalized_input : gmap pystr PyVal) : Outcome pystr :=
  match normalized_input !! py "text" with
  | Some text =>
      slash ← py_startswith text (py "/");
      bang ← (if slash : bool then Returned true else py_startswith text (py "!"));
      if bang : bool then Returned (py "command")
      else if py_in (py "attachments") normalized_input then
        Returned (py "text_with_attachments")
      else Returned (py "text")
  | None =>
      if py_in (py "file") normalized_input then Returned (py "file_upload")
      else Returned (py "unknown")
  end.

(** The heuristic as the specification words it, in the order it lists the
    rules. *)
Definition spec_content_type (normalized_input : gmap pystr PyVal) : pystr :=
  match normalized_input !! py "text" with
  | Some (PyStr (47 :: _)) | Some (PyStr (33 :: _)) => py "command"
  | _ =>
      if py_in (py "attachments") normalized_input then py "text_with_attachments"
      else if py_in (py "file") normalized_input then py "file_upload"
      else if py_in (py "text") normalized_input then py "text"
      else py "unknown"
  end.

(** The rules as the code nests them: the [attachments] key is looked at
    only next to a [text] key, the [file] key only without one. *)
Definition leading_mark (s : pystr) : bool :=
  match s with
  | c :: _ => bool_decide (c = 47 ∨ c = 33)
  | [] => false
  end.

(** Number of octets of the UTF-8 form of a code point. *)
Definition utf8_width (c : N) : nat :=
  if c <? 0x80 then 1 else if c <? 0x800 then 2 else if c <? 0x10000 then 3 else 4.

(** UTF-8 encoding of one code point.  Surrogates cannot be encoded
    ([UnicodeEncodeError]); values from [0x110000] on are not code points. *)
Definition utf8_encode_cp (c : N) : Outcome (list N) :=
  if c <? 0x80 then Returned [c]
  else if c <? 0x800 then Returned [0xC0 + c / 0x40; 0x80 + c mod 0x40]
  else if (0xD800 <=? c) && (c <=? 0xDFFF) then
    Raised (UnicodeEncodeError "'utf-8' codec can't encode character: surrogates not allowed")
  else if c <? 0x10000 then
    Returned [0xE0 + c / 0x1000; 0x80 + (c / 0x40) mod 0x40; 0x80 + c mod 0x40]
  else if c <? 0x110000 then
    Returned [0xF0 + c / 0x40000; 0x80 + (c / 0x1000) mod 0x40;
              0x80 + (c / 0x40) mod 0x40; 0x80 + c mod 0x40]
  else Raised (UnicodeEncodeError "not a code point").

(** [s.encode('utf-8')]. *)
Fixpoint encode_utf8 (s : pystr) : Outcome (list N) :=
  match s with
  | [] => Returned []
  | c :: rest =>
      bs ← utf8_encode_cp c;
      tail ← encode_utf8 rest;
      Returned (bs ++ tail)
  end.

(** [len(x)] as a Python int. *)
Definition py_len {A} (l : list A) : Z := Z.of_nat (length l).

Section calculate_input_size.
(** The two standard-library calls the function makes on values that are
    neither text nor bytes: [json.dumps(v, default=str)] and [str(v)]. *)
Variable json_dumps_default_str : PyVal → Outcome pystr.
Variable py_str : PyVal → Outcome pystr.

(** [InputValidator._calculate_input_size]. *)
Definition _calculate_input_size (raw_input : PyVal) : Outcome Z :=
  match raw_input with
  | PyStr s =>
      bs ← encode_utf8 s; Returned (py_len bs)
  | PyBytes b =>
      Returned (py_len b)
  | PyDict _ =>
      js ← json_dumps_default_str raw_input;
      bs ← encode_utf8 js; Returned (py_len bs)
  | _ =>
      s ← py_str raw_input;
      bs ← encode_utf8 s; Returned (py_len bs)
  end.
End calculate_input_size.

(** Truth value of a value, as [if v] and [not v] test it. *)
Definition py_truthy (v : PyVal) : bool :=
  match v with
  | PyNone => false
  | PyBool b => b
  | PyInt z => negb (z =? 0)%Z
  | PyStr s => match s with [] => false | _ => true end
  | PyBytes b => match b with [] => false | _ => true end
  | PyList l => match l with [] => false | _ => true end
  | PyDict d => negb (size d =? 0)%nat
  end.

(** [w in s] on strings: [w] occurs in [s] as a contiguous run. *)
Fixpoint py_contains (s w : pystr) : bool :=
  startswith s w ||
  match s with
  | [] => false
  | _ :: rest => py_contains rest w
  end.

(** [w] occurs in [t] as a contiguous run. *)
Definition occurs (w t : pystr) : Prop := ∃ pre suf, t = pre ++ w ++ suf.

Section detect_language.
(** [str.lower()]: the Unicode case mapping of the interpreter. *)
Variable py_lower : pystr → pystr.

(** [any(word in text.lower() for word in words)] for a string [text]. *)
Definition any_word_in (text : pystr) (words : list pystr) : bool :=
  existsb (λ word, py_contains (py_lower text) word) words.

(** [InputValidator._detect_language]. *)
Definition _detect_language (normalized_input : gmap pystr PyVal)
    : Outcome (option pystr) :=
  let text := default (PyStr (py "")) (normalized_input !! py "text") in
  if negb (py_truthy text) then Returned None
  else
    match text with
    | PyStr s =>
        if any_word_in s [py "the"; py "and"; py "or"; py "but"] then
          Returned (Some (py "en"))
        else if any_word_in s [py "el"; py "la"; py "y"; py "o"] then
          Returned (Some (py "es"))
        else Returned (Some (py "en"))
    | PyBytes _ => Raised (TypeError "a bytes-like object is required, not 'str'")
    | _ => Raised (no_attribute text "lower")
    end.
End detect_language.

End Validation.

(** ** models.py *)
Module Models.

(** A [datetime], in microseconds since the epoch. *)
Definition datetime := Z.

Record SourceCredentials : Type := {
  sc_source_type : pystr;
  sc_source_id : pystr;
  sc_credentials : gmap pystr PyVal;
  sc_credential_permissions : list pystr;
  sc_expires_at : option datetime;
  sc_metadata : gmap pystr PyVal;
}.

Record AuthContext : Type := {
  user_id : pystr;
  source_type : pystr;
  source_id : pystr;
  granted_permissions : list pystr;
  session_id : option pystr;
  authenticated_at : datetime;
  expires_at : option datetime;
  auth_metadata : gmap pystr PyVal;
}.

Record ValidatedInput : Type := {
  raw_input : PyVal;
  normalized_input : gmap pystr PyVal;
  validation_confidence : pyfloat;
  validation_warnings : list pystr;
  detected_language : option pystr;
  content_type : pystr;
  input_size_bytes : Z;
  processing_time_ms : Z;
}.

Record ProcessingContext : Type := {
  auth_context : AuthContext;
  validated_input : ValidatedInput;
  pipeline_start_time : datetime;
  processing_steps : list pystr;
  target_event_type : pystr;
  stream_id : option pystr;
  thread_id : option pystr;
  adapter_context : gmap pystr PyVal;
}.

Record InputCapability : Type := {
  cap_name : pystr;
  cap_description : pystr;
  cap_version : pystr;
  cap_parameters : gmap pystr PyVal;
  cap_required : bool;
  cap_experimental : bool;
  cap_dependencies : list pystr;
}.

End Models.

(** ** authentication.py: assembling the authentication context *)
Module Authenticator.
Import Models.

(** [InputAuthenticator.create_auth_context]; [now] is the reading of
    [datetime.utcnow()].  The constructor call names no [session_id], which
    keeps its default [None]. *)
Definition create_auth_context (now : datetime) (user_id : pystr)
    (credentials : SourceCredentials) (final_permissions : list pystr)
    (auth_metadata : gmap pystr PyVal) : AuthContext :=
  {| Models.user_id := user_id;
     source_type := sc_source_type credentials;
     source_id := sc_source_id credentials;
     granted_permissions := final_permissions;
     session_id := None;
     authenticated_at := now;
     expires_at := sc_expires_at credentials;
     auth_metadata := auth_metadata |}.

End Authenticator.

(** ** processing.py *)
Module Processing.
Import Models.

(** Truth value of an [Optional[str]]: [None] and [""] are false. *)
Definition truthy (o : option pystr) : bool :=
  match o with
  | Some (_ :: _) => true
  | _ => false
  end.

(** [a or b]: [a] when it is true, else [b]. *)
Definition py_or (a b : option pystr) : option pystr :=
  if truthy a then a else b.

(** [a or b] where [b] is a string. *)
Definition py_or_str (a : option pystr) (b : pystr) : pystr :=
  if truthy a then default b a else b.

(** [EventBuilder.generate_event_ids].  The two [str(uuid4())] draws are
    inputs: [uuid_event] for [event_id], [uuid_trace] for [trace_id]. *)
Definition generate_event_ids (uuid_event uuid_trace : pystr)
    (processing_context : ProcessingContext) : gmap pystr pystr :=
  let event_id := uuid_event in
  let stream_id :=
    py_or_str (py_or (stream_id processing_context)
                     (session_id (auth_context processing_context)))
              (py "stream_" ++ slice_first 8 event_id) in
  let trace_id := uuid_trace in
  {[ py "event_id" := event_id;
     py "stream_id" := stream_id;
     py "trace_id" := trace_id ]}.

(** The precedence as the specification words it, reading "set" as "not
    [None]". *)
Definition stream_id_as_worded (uuid_event : pystr)
    (processing_context : ProcessingContext) : pystr :=
  match stream_id processing_context with
  | Some s => s
  | None =>
      match session_id (auth_context processing_context) with
      | Some s => s
      | None => py "stream_" ++ slice_first 8 uuid_event
      end
  end.

(** A processing context for a plain text message, with the two optional
    identifiers left open. *)
Definition example_auth (session : option pystr) : AuthContext :=
  {| user_id := py "user_123"; source_type := py "api"; source_id := py "api_key_789";
     granted_permissions := [py "chat"]; session_id := session;
     authenticated_at := 0%Z; expires_at := None; auth_metadata := ∅ |}.

Definition example_validated : ValidatedInput :=
  {| raw_input := PyStr (py "hello");
     normalized_input := {[ py "text" := PyStr (py "hello") ]};
     validation_confidence := FloatLiterals.one; validation_warnings := [];
     detected_language := Some (py "en"); content_type := py "text";
     input_size_bytes := 5%Z; processing_time_ms := 0%Z |}.

Definition example_context (stream session : option pystr) : ProcessingContext :=
  {| auth_context := example_auth session; validated_input := example_validated;
     pipeline_start_time := 0%Z;
     processing_steps := [py "authentication"; py "validation"];
     target_event_type := py "input.message.text";
     stream_id := stream; thread_id := None; adapter_context := ∅ |}.

Definition example_uuid : pystr := py "123e4567-e89b-42d3-a456-426614174000".

(** [class ProcessingError(ProcessingError)] of [processing.py]: the base
    fields the constructor call uses and the three fields the class adds
    (default [""]). *)
Record ProcessingError : Type := {
  error_type : pystr;
  message : pystr;
  component : pystr;
  processing_stage : pystr;
  pe_content_type : pystr;
  original_format : pystr;
}.

Section extract_text.
(** [str(v)] of the interpreter on values that are not strings, and
    [self.__class__.__name__]. *)
Variable py_str : PyVal → Outcome pystr.
Variable class_name : pystr.

(** [str(v)]: a string is its own string form. *)
Definition str_of (v : PyVal) : Outcome pystr :=
  match v with
  | PyStr s => Returned s
  | _ => py_str v
  end.

(** [ContentNormalizer.extract_text_from_format]. *)
Definition extract_text_from_format (content_data : PyVal) (format_type : pystr)
    : Outcome (Result pystr ProcessingError) :=
  let text_extraction_error :=
    {| error_type := py "text_extraction_error";
       message := py "Cannot extract text from format: " ++ format_type;
       component := class_name;
       processing_stage := py "text_extraction";
       pe_content_type := format_type;
       original_format := py "" |} in
  match content_data with
  | PyStr s => Returned (Success s)
  | PyDict d =>
      match d !! py "text" with
      | Some text => s ← str_of text; Returned (Success s)
      | None => Returned (Error text_extraction_error)
      end
  | _ => Returned (Error text_extraction_error)
  end.
End extract_text.

(** A metadata value: a plain value or a float. *)
Inductive PyAny : Type :=
  | Plain (v : PyVal)
  | PyFloat (x : pyfloat).

(** Modelled from the spec: [EventContext] of [janus.core], with the fields
    the constructor call in [create_event_context] names. *)
Record EventContext : Type := {
  ec_user_id : pystr;
  ec_session_id : pystr;
  ec_source_type : pystr;
  ec_source_id : pystr;
  ec_permissions : list pystr;
  ec_priority : pystr;
  ec_metadata : gmap pystr PyAny;
}.

(** [EventBuilder.create_event_context]; [now] is the reading of
    [datetime.utcnow()].  In the dict display the entries of
    [adapter_context] come last, so they replace earlier entries with the
    same key. *)
Definition create_event_context (now : datetime)
    (processing_context : ProcessingContext) : EventContext :=
  let auth := auth_context processing_context in
  {| ec_user_id := user_id auth;
     ec_session_id :=
       py_or_str (py_or (session_id auth) (stream_id processing_context))
                 (user_id auth);
     ec_source_type := source_type auth;
     ec_source_id := source_id auth;
     ec_permissions := granted_permissions auth;
     ec_priority := py "normal";
     ec_metadata :=
       (Plain <$> adapter_context processing_context)
       ∪ {[ py "processing_pipeline" :=
              Plain (PyList (PyStr <$> processing_steps processing_context));
            py "authentication_method" :=
              Plain (default (PyStr (py "unknown"))
                       (auth_metadata auth !! py "method"));
            py "processing_time_ms" :=
              PyFloat (timedelta_ms
                         (now - pipeline_start_time processing_context)) ]} |}.

(** [InputProcessor.create_processing_context]; [now] is the reading of
    [datetime.utcnow()].  The fields the call does not name keep their
    defaults; [adapter_context or {}] is the given dict, or the empty one
    for [None] (and for an empty dict). *)
Definition create_processing_context (now : datetime)
    (validated_input : ValidatedInput) (auth_context : AuthContext)
    (adapter_context : option (gmap pystr PyVal)) : ProcessingContext :=
  {| Models.auth_context := auth_context;
     Models.validated_input := validated_input;
     pipeline_start_time := now;
     processing_steps := [py "authentication"; py "validation"];
     target_event_type := py "input.message.text";
     stream_id := None;
     thread_id := None;
     Models.adapter_context := default ∅ adapter_context |}.

End Processing.

(** ** capabilities.py *)
Module Capabilities.

Section registry.
(** The abstract method [CapabilityRegistry.find_providers_with_capability]
    of the registry at hand. *)
Variable find_providers_with_capability : pystr → list pystr.

(** The [for capability in required_capabilities] loop; [None] is the
    initial value of [candidate_providers]. *)
Fixpoint candidates_loop (required_capabilities : list pystr)
    (candidate_providers : option (gset pystr)) : option (gset pystr) :=
  match required_capabilities with
  | [] => candidate_providers
  | capability :: rest =>
      let providers_with_capability : gset pystr :=
        list_to_set (find_providers_with_capability capability) in
      candidates_loop rest
        (match candidate_providers with
         | None => Some providers_with_capability
         | Some c => Some (c ∩ providers_with_capability)
         end)
  end.

(** [not x] for an optional set and for an optional list. *)
Definition falsy_set (s : option (gset pystr)) : bool :=
  match s with
  | None => true
  | Some c => bool_decide (c = ∅)
  end.

Definition truthy_list (l : option (list pystr)) : bool :=
  match l with
  | Some (_ :: _) => true
  | _ => false
  end.

(** [CapabilityRegistry.find_best_provider_for_requirements]. *)
Definition find_best_provider_for_requirements
    (required_capabilities : list pystr)
    (preferred_providers : option (list pystr)) : Outcome (option pystr) :=
  let candidate_providers := candidates_loop required_capabilities None in
  if falsy_set candidate_providers then Returned None
  else
    let candidates : gset pystr := default ∅ candidate_providers in
    let candidates :=
      if truthy_list preferred_providers then
        let preferred_candidates :=
          candidates ∩ list_to_set (default [] preferred_providers) in
        if bool_decide (preferred_candidates = ∅) then candidates
        else preferred_candidates
      else candidates in
    match elements candidates with
    | first :: _ => Returned (Some first)
    | [] => Raised (IndexError "list index out of range")
    end.

(** A provider supports all the required capabilities when the registry
    lists it under each of them. *)
Definition supports_all (required_capabilities : list pystr) (p : pystr) : Prop :=
  ∀ c, c ∈ required_capabilities → p ∈ find_providers_with_capability c.
End registry.

Section provider.
Import Models.
(** The abstract methods [CapabilityProvider.get_capabilities] and
    [CapabilityProvider.supports_capability] of the provider at hand. *)
Variable get_capabilities : list InputCapability.
Variable supports_capability : pystr → bool.

(** The [for capability in capabilities] loop of [get_capability_details]. *)
Fixpoint details_loop (capabilities : list InputCapability) (capability_name : pystr)
    : option InputCapability :=
  match capabilities with
  | [] => None
  | capability :: rest =>
      if decide (cap_name capability = capability_name) then Some capability
      else details_loop rest capability_name
  end.

(** [CapabilityProvider.get_capability_details]. *)
Definition get_capability_details (capability_name : pystr) : option InputCapability :=
  details_loop get_capabilities capability_name.

(** [CapabilityProvider.get_capability_dependencies]. *)
Definition get_capability_dependencies (capability_name : pystr) : list pystr :=
  match get_capability_details capability_name with
  | Some capability => cap_dependencies capability
  | None => []
  end.

(** [f"{capability_name} (requires {dep})"]. *)
Definition requires_entry (capability_name dep : pystr) : pystr :=
  capability_name ++ py " (requires " ++ dep ++ py ")".

(** The inner [for dep in dependencies] loop. *)
Fixpoint dependencies_loop (capability_name : pystr) (dependencies missing : list pystr)
    : list pystr :=
  match dependencies with
  | [] => missing
  | dep :: rest =>
      dependencies_loop capability_name rest
        (if supports_capability dep then missing
         else missing ++ [requires_entry capability_name dep])
  end.

(** The outer [for capability_name in required_capabilities] loop. *)
Fixpoint requirements_loop (required_capabilities missing : list pystr) : list pystr :=
  match required_capabilities with
  | [] => missing
  | capability_name :: rest =>
      if negb (supports_capability capability_name) then
        requirements_loop rest (missing ++ [capability_name])
      else
        let dependencies := get_capability_dependencies capability_name in
        requirements_loop rest (dependencies_loop capability_name dependencies missing)
  end.

(** [CapabilityProvider.validate_capability_requirements]. *)
Definition validate_capability_requirements (required_capabilities : list pystr)
    : list pystr :=
  requirements_loop required_capabilities [].
End provider.

(** A provider that offers attachments (which need text processing) and
    text processing, and supports both. *)
Definition example_capabilities : list Models.InputCapability :=
  [ {| Models.cap_name := py "file_attachments";
       Models.cap_description := py "Process file attachments";
       Models.cap_version := py "1.0"; Models.cap_parameters := ∅;
       Models.cap_required := false; Models.cap_experimental := false;
       Models.cap_dependencies := [py "text_processing"] |};
    {| Models.cap_name := py "text_processing";
       Models.cap_description := py "Basic text content processing";
       Models.cap_version := py "1.0"; Models.cap_parameters := ∅;
       Models.cap_required := true; Models.cap_experimental := false;
       Models.cap_dependencies := [] |} ].

Definition example_supports (capability_name : pystr) : bool :=
  bool_decide (capability_name ∈ [py "file_attachments"; py "text_processing"]).

(** A registry with two providers: both process text, one also threads. *)
Definition example_registry (capability : pystr) : list pystr :=
  if decide (capability = py "text_processing") then [py "slack"; py "api"]
  else if decide (capability = py "threading") then [py "slack"]
  else [].

End Capabilities.

(** ** pipeline.py *)
Module Pipeline.
Import Models.

(** Modelled from the spec: the base [ProcessingError] of [janus.core],
    which is not part of the input package.  All errors of the taxonomy
    "carry a stable [error_type] tag and human-readable [message]"; the
    fields a subclass adds ([auth_failure_reason], [validation_stage], ...)
    are kept in [details]. *)
Record StageError : Type := {
  error_type : pystr;
  message : pystr;
  component : pystr;
  details : gmap pystr PyVal;
}.

(** [class PipelineError(ProcessingError)]. *)
Record PipelineError : Type := {
  pe_error_type : pystr;
  pe_message : pystr;
  pe_component : pystr;
  failed_stage : pystr;
  pipeline_context : gmap pystr PyVal;
  stage_errors : list StageError;
}.

(** Modelled from the spec: [JanusEvent] of [janus.core], with the fields the
    data model lists and the text of its content. *)
Record JanusEvent : Type := {
  event_id : pystr;
  ev_stream_id : pystr;
  event_type : pystr;
  timestamp : datetime;
  trace_id : pystr;
  content_text : pystr;
}.

(** [class PipelineResult(BaseModel)]. *)
Record PipelineResult : Type := {
  event : option JanusEvent;
  success : bool;
  error : option PipelineError;
  total_processing_time_ms : Z;
  stage_timings : gmap pystr Z;
  stages_completed : list pystr;
  processing_context : option ProcessingContext;
  pipeline_id : pystr;
  started_at : datetime;
  completed_at : option datetime;
}.

(** The mutable world of one run: the [PipelineResult] object the stage
    helpers update in place, and how many clock readings were taken. *)
Record World : Type := {
  result : PipelineResult;
  ticks : nat;
}.

(** Computations that read and update the world and may raise.  The world
    is kept when an exception is raised, as in Python. *)
Definition M (A : Type) : Type := World → Outcome A * World.

#[global] Instance M_ret : MRet M := λ A a w, (Returned a, w).
#[global] Instance M_bind : MBind M := λ A B k m w,
  match m w with
  | (Returned a, w') => k a w'
  | (Raised e, w') => (Raised e, w')
  end.

(** [try: body except Exception as e: handler(e)]. *)
Definition try_except {A} (body : M A) (handler : PyExc → M A) : M A := λ w,
  match body w with
  | (Returned a, w') => (Returned a, w')
  | (Raised e, w') => handler e w'
  end.

(** Awaiting a collaborator: its outcome, the world untouched (a
    collaborator is never handed the result object). *)
Definition await {A} (o : Outcome A) : M A := λ w, (o, w).

(** Evaluating an expression that may raise. *)
Definition evaluate {A} (o : Outcome A) : M A := λ w, (o, w).

Definition get_result : M PipelineResult := λ w, (Returned (result w), w).

Definition update_result (f : PipelineResult → PipelineResult) : M unit := λ w,
  (Returned tt, {| result := f (result w); ticks := ticks w |}).

(** [result.stage_timings[key] = value]. *)
Definition set_stage_timing (key : pystr) (value : Z) : M unit :=
  update_result (λ r,
    {| event := event r; success := success r; error := error r;
       total_processing_time_ms := total_processing_time_ms r;
       stage_timings := <[key := value]> (stage_timings r);
       stages_completed := stages_completed r;
       processing_context := processing_context r;
       pipeline_id := pipeline_id r; started_at := started_at r;
       completed_at := completed_at r |}).

(** [result.stages_completed.append(name)]. *)
Definition append_stage_completed (name : pystr) : M unit :=
  update_result (λ r,
    {| event := event r; success := success r; error := error r;
       total_processing_time_ms := total_processing_time_ms r;
       stage_timings := stage_timings r;
       stages_completed := stages_completed r ++ [name];
       processing_context := processing_context r;
       pipeline_id := pipeline_id r; started_at := started_at r;
       completed_at := completed_at r |}).

(** The result object after a stage that took [t] ms: the timing is
    recorded under the stage name, and the name is appended to
    [stages_completed] when the stage succeeded ([ok]). *)
Definition after_stage (name : pystr) (t : Z) (ok : bool) (r : PipelineResult)
    : PipelineResult :=
  {| event := event r; success := success r; error := error r;
     total_processing_time_ms := total_processing_time_ms r;
     stage_timings := <[name := t]> (stage_timings r);
     stages_completed :=
       if ok then stages_completed r ++ [name] else stages_completed r;
     processing_context := processing_context r;
     pipeline_id := pipeline_id r; started_at := started_at r;
     completed_at := completed_at r |}.

(** The value a collaborator succeeded with, if it did: it neither returned
    an error nor raised. *)
Definition stage_succeeded {T} (o : Outcome (Result T StageError)) : option T :=
  match o with
  | Returned (Success v) => Some v
  | _ => None
  end.

Definition is_ok {T} (o : Outcome (Result T StageError)) : bool :=
  match o with Returned (Success _) => true | _ => false end.

(** What a stage helper owes its caller: run from world [w] with a
    collaborator whose outcome is [collaborator], it returns (never raises),
    the timing recorded for stage [name] is [timing], and
    - on success the value is passed on and [name] is appended to
      [stages_completed];
    - on an error result or a raised exception it returns a [PipelineError]
      with [failed_stage = name] and the pipeline id in [pipeline_context],
      and [stages_completed] is unchanged; the stage error is kept in
      [stage_errors] in the first case, the exception text under
      ["exception"] in the second. *)
Definition stage_contract {T} (name : pystr) (timing : Z)
    (collaborator : Outcome (Result T StageError)) (w : World)
    (run : Outcome (Result T PipelineError) * World) : Prop :=
  ∃ r, run.1 = Returned r
    ∧ stage_timings (result run.2) !! name = Some timing
    ∧ pipeline_id (result run.2) = pipeline_id (result w)
    ∧ match collaborator with
      | Returned (Success v) =>
          r = Success v
          ∧ stages_completed (result run.2) = stages_completed (result w) ++ [name]
      | Returned (Error e) =>
          ∃ pe, r = Error pe
            ∧ failed_stage pe = name
            ∧ pipeline_context pe !! py "pipeline_id"
              = Some (PyStr (pipeline_id (result w)))
            ∧ stage_errors pe = [e]
            ∧ stages_completed (result run.2) = stages_completed (result w)
      | Raised exc =>
          ∃ pe, r = Error pe
            ∧ failed_stage pe = name
            ∧ pipeline_context pe !! py "pipeline_id"
              = Some (PyStr (pipeline_id (result w)))
            ∧ pipeline_context pe !! py "exception" = Some (PyStr (exc_str exc))
            ∧ stages_completed (result run.2) = stages_completed (result w)
      end.

(** The wall clock behind [time.time()]: its [n]-th reading, in seconds.
    The readings of a clock are finite and of the scale of the epoch, so the
    elapsed time between any two of them, in milliseconds, is a finite
    float. *)
Record TimeClock : Type := {
  time_reading :> nat → pyfloat;
  time_reading_finite : ∀ m n,
    PrimFloat.is_finite
      (PrimFloat.mul (PrimFloat.sub (time_reading n) (time_reading m))
         FloatLiterals.thousand) = true;
}.

(** The clock behind [datetime.utcnow()]: its [n]-th reading.  Datetimes
    span less than ten thousand years, so the difference of two readings in
    milliseconds is a finite float. *)
Record UtcClock : Type := {
  utc_reading :> nat → datetime;
  utc_reading_finite : ∀ m n,
    PrimFloat.is_finite (timedelta_ms (utc_reading n - utc_reading m)) = true;
}.

Section pipeline.
(** The clocks of the run. *)
Variable time_clock : TimeClock.
Variable utc_clock : UtcClock.

(** The composed collaborators ([self.authenticator.authenticate],
    [self.validator.validate], [self.processor.process]): each returns a
    [Result] or raises. *)
Variable authenticate :
  SourceCredentials → gmap pystr PyVal → Outcome (Result AuthContext StageError).
Variable validate :
  PyVal → AuthContext → Outcome (Result ValidatedInput StageError).
Variable processor_process :
  ValidatedInput → AuthContext → Outcome (Result JanusEvent StageError).

(** [self.pipeline_id]. *)
Variable self_pipeline_id : pystr.

Definition time_time : M pyfloat := λ w,
  (Returned (time_clock (ticks w)), {| result := result w; ticks := S (ticks w) |}).

Definition utcnow : M datetime := λ w,
  (Returned (utc_clock (ticks w)), {| result := result w; ticks := S (ticks w) |}).

(** The time a stage started at tick [n] is found to have taken. *)
Definition stage_ms (n : nat) : Z :=
  float_trunc
    (PrimFloat.mul (PrimFloat.sub (time_clock (S n)) (time_clock n))
       FloatLiterals.thousand).

(** [int((time.time() - stage_start) * 1000)]. *)
Definition elapsed_ms (stage_start : pyfloat) : M Z :=
  now ← time_time;
  evaluate (py_int (PrimFloat.mul (PrimFloat.sub now stage_start)
                      FloatLiterals.thousand)).

(** [InputPipeline.create_pipeline_result]. *)
Definition create_pipeline_result (pipeline_id : pystr) : M PipelineResult :=
  now ← utcnow;
  mret {| event := None; success := false; error := None;
          total_processing_time_ms := 0%Z;
          stage_timings := ∅; stages_completed := [];
          processing_context := None;
          pipeline_id := pipeline_id; started_at := now;
          completed_at := None |}.

(** [PipelineResult.mark_completed]: [completed_at] is stamped first, then
    the total is derived from it. *)
Definition mark_completed : M unit :=
  now ← utcnow;
  update_result (λ r,
    {| event := event r; success := success r; error := error r;
       total_processing_time_ms := total_processing_time_ms r;
       stage_timings := stage_timings r;
       stages_completed := stages_completed r;
       processing_context := processing_context r;
       pipeline_id := pipeline_id r; started_at := started_at r;
       completed_at := Some now |});;
  r ← get_result;
  total ← evaluate (py_int (timedelta_ms (now - started_at r)));
  update_result (λ r,
    {| event := event r; success := success r; error := error r;
       total_processing_time_ms := total;
       stage_timings := stage_timings r;
       stages_completed := stages_completed r;
       processing_context := processing_context r;
       pipeline_id := pipeline_id r; started_at := started_at r;
       completed_at := completed_at r |}).

(** [InputPipeline.execute_authentication_stage]. *)
Definition execute_authentication_stage
    (credentials : SourceCredentials) (request_context : gmap pystr PyVal)
    : M (Result AuthContext PipelineError) :=
  stage_start ← time_time;
  try_except
    (auth_result ← await (authenticate credentials request_context);
     stage_time ← elapsed_ms stage_start;
     set_stage_timing (py "authentication") stage_time;;
     match auth_result with
     | Success auth_context =>
         append_stage_completed (py "authentication");;
         mret (Success auth_context)
     | Error auth_error =>
         r ← get_result;
         mret (Error
           {| pe_error_type := py "pipeline_error";
              pe_message := py "Authentication failed: " ++ message auth_error;
              pe_component := py "InputPipeline";
              failed_stage := py "authentication";
              pipeline_context := {[ py "pipeline_id" := PyStr (pipeline_id r) ]};
              stage_errors := [auth_error] |})
     end)
    (λ e,
     stage_time ← elapsed_ms stage_start;
     set_stage_timing (py "authentication") stage_time;;
     r ← get_result;
     mret (Error
       {| pe_error_type := py "pipeline_error";
          pe_message := py "Authentication stage failed: " ++ exc_str e;
          pe_component := py "InputPipeline";
          failed_stage := py "authentication";
          pipeline_context :=
            {[ py "pipeline_id" := PyStr (pipeline_id r);
               py "exception" := PyStr (exc_str e) ]};
          stage_errors := [] |})).

(** [InputPipeline.execute_validation_stage]. *)
Definition execute_validation_stage
    (raw_input : PyVal) (auth_context : AuthContext)
    : M (Result ValidatedInput PipelineError) :=
  stage_start ← time_time;
  try_except
    (validation_result ← await (validate raw_input auth_context);
     stage_time ← elapsed_ms stage_start;
     set_stage_timing (py "validation") stage_time;;
     match validation_result with
     | Success validated_input =>
         append_stage_completed (py "validation");;
         mret (Success validated_input)
     | Error validation_error =>
         r ← get_result;
         mret (Error
           {| pe_error_type := py "pipeline_error";
              pe_message := py "Validation failed: " ++ message validation_error;
              pe_component := py "InputPipeline";
              failed_stage := py "validation";
              pipeline_context := {[ py "pipeline_id" := PyStr (pipeline_id r) ]};
              stage_errors := [validation_error] |})
     end)
    (λ e,
     stage_time ← elapsed_ms stage_start;
     set_stage_timing (py "validation") stage_time;;
     r ← get_result;
     mret (Error
       {| pe_error_type := py "pipeline_error";
          pe_message := py "Validation stage failed: " ++ exc_str e;
          pe_component := py "InputPipeline";
          failed_stage := py "validation";
          pipeline_context :=
            {[ py "pipeline_id" := PyStr (pipeline_id r);
               py "exception" := PyStr (exc_str e) ]};
          stage_errors := [] |})).

(** [InputPipeline.execute_processing_stage]. *)
Definition execute_processing_stage
    (validated_input : ValidatedInput) (auth_context : AuthContext)
    : M (Result JanusEvent PipelineError) :=
  stage_start ← time_time;
  try_except
    (processing_result ← await (processor_process validated_input auth_context);
     stage_time ← elapsed_ms stage_start;
     set_stage_timing (py "processing") stage_time;;
     match processing_result with
     | Success janus_event =>
         append_stage_completed (py "processing");;
         mret (Success janus_event)
     | Error processing_error =>
         r ← get_result;
         mret (Error
           {| pe_error_type := py "pipeline_error";
              pe_message := py "Processing failed: " ++ message processing_error;
              pe_component := py "InputPipeline";
              failed_stage := py "processing";
              pipeline_context := {[ py "pipeline_id" := PyStr (pipeline_id r) ]};
              stage_errors := [processing_error] |})
     end)
    (λ e,
     stage_time ← elapsed_ms stage_start;
     set_stage_timing (py "processing") stage_time;;
     r ← get_result;
     mret (Error
       {| pe_error_type := py "pipeline_error";
          pe_message := py "Processing stage failed: " ++ exc_str e;
          pe_component := py "InputPipeline";
          failed_stage := py "processing";
          pipeline_context :=
            {[ py "pipeline_id" := PyStr (pipeline_id r);
               py "exception" := PyStr (exc_str e) ]};
          stage_errors := [] |})).

(** Recording the failure and finalising the result. *)
Definition finish_failed (pipeline_error : PipelineError) : M PipelineResult :=
  update_result (λ r,
    {| event := event r; success := false; error := Some pipeline_error;
       total_processing_time_ms := total_processing_time_ms r;
       stage_timings := stage_timings r;
       stages_completed := stages_completed r;
       processing_context := processing_context r;
       pipeline_id := pipeline_id r; started_at := started_at r;
       completed_at := completed_at r |});;
  mark_completed;;
  get_result.

Definition finish_succeeded (janus_event : JanusEvent) : M PipelineResult :=
  update_result (λ r,
    {| event := Some janus_event; success := true; error := error r;
       total_processing_time_ms := total_processing_time_ms r;
       stage_timings := stage_timings r;
       stages_completed := stages_completed r;
       processing_context := processing_context r;
       pipeline_id := pipeline_id r; started_at := started_at r;
       completed_at := completed_at r |});;
  mark_completed;;
  get_result.

(** Modelled from the spec: [InputPipeline.process], which [pipeline.py]
    only declares (it is abstract there).  It "executes the three stages in
    fixed order"; "on failure, construct a [PipelineError] [...], then
    stop — later stages never run"; "every run (success or failure)
    finalizes [PipelineResult] by stamping [completed_at]".  The stages are
    the helpers of the source, above. *)
Definition process (raw_input : PyVal) (credentials : SourceCredentials)
    (request_context : option (gmap pystr PyVal)) : M PipelineResult :=
  fresh ← create_pipeline_result self_pipeline_id;
  update_result (λ _, fresh);;
  auth_result ← execute_authentication_stage credentials (default ∅ request_context);
  match auth_result with
  | Error pipeline_error => finish_failed pipeline_error
  | Success auth_context =>
      validation_result ← execute_validation_stage raw_input auth_context;
      match validation_result with
      | Error pipeline_error => finish_failed pipeline_error
      | Success validated_input =>
          processing_result ← execute_processing_stage validated_input auth_context;
          match processing_result with
          | Error pipeline_error => finish_failed pipeline_error
          | Success janus_event => finish_succeeded janus_event
          end
      end
  end.
End pipeline.

(** What a stage helper leaves alone: going from result [r] to [r'] for the
    stage [name], only the timing under [name] and [stages_completed] may
    differ. *)
Definition stage_frame (name : pystr) (r r' : PipelineResult) : Prop :=
  event r' = event r
  ∧ success r' = success r
  ∧ error r' = error r
  ∧ total_processing_time_ms r' = total_processing_time_ms r
  ∧ processing_context r' = processing_context r
  ∧ pipeline_id r' = pipeline_id r
  ∧ started_at r' = started_at r
  ∧ completed_at r' = completed_at r
  ∧ (∀ k, k ≠ name → stage_timings r' !! k = stage_timings r !! k).

Section health.
(** The health checks of the composed collaborators: each returns or
    raises. *)
Variable authenticator_health : Outcome bool.
Variable validator_health : Outcome (gmap pystr bool).
Variable processor_health : Outcome (gmap pystr bool).

(** [{f"{prefix}{k}": v for k, v in health.items()}]. *)
Definition prefixed (prefix : pystr) (health : gmap pystr bool) : gmap pystr bool :=
  kmap (λ k, prefix ++ k) health.

(** [InputPipeline.health_check]; [d.update(e)] is [e ∪ d]. *)
Definition health_check : gmap pystr bool :=
  let health_status : gmap pystr bool := ∅ in
  let health_status :=
    match authenticator_health with
    | Returned healthy => <[py "authenticator" := healthy]> health_status
    | Raised _ => <[py "authenticator" := false]> health_status
    end in
  let health_status :=
    match validator_health with
    | Returned health => prefixed (py "validator_") health ∪ health_status
    | Raised _ => <[py "validator" := false]> health_status
    end in
  let health_status :=
    match processor_health with
    | Returned health => prefixed (py "processor_") health ∪ health_status
    | Raised _ => <[py "processor" := false]> health_status
    end in
  health_status.
End health.

(** Two clocks for examples: a wall clock that alternates between [0.0]
    and [0.009] seconds, and a UTC clock that alternates between the epoch
    and 1.001 seconds after it. *)
Definition example_time_reading (n : nat) : pyfloat :=
  if Nat.even n then PrimFloat.zero else FloatLiterals.nine_ms.

Lemma example_time_reading_finite m n :
  PrimFloat.is_finite
    (PrimFloat.mul (PrimFloat.sub (example_time_reading n) (example_time_reading m))
       FloatLiterals.thousand) = true.
Proof.
  unfold example_time_reading. destruct (Nat.even n), (Nat.even m); by vm_compute.
Qed.

Definition example_time_clock : TimeClock :=
  {| time_reading := example_time_reading;
     time_reading_finite := example_time_reading_finite |}.

Definition example_utc_reading (n : nat) : datetime :=
  if Nat.even n then 0%Z else 1001000%Z.

Lemma example_utc_reading_finite m n :
  PrimFloat.is_finite (timedelta_ms (example_utc_reading n - example_utc_reading m))
  = true.
Proof.
  unfold example_utc_reading. destruct (Nat.even n), (Nat.even m); by vm_compute.
Qed.

Definition example_utc_clock : UtcClock :=
  {| utc_reading := example_utc_reading;
     utc_reading_finite := example_utc_reading_finite |}.

(** A run whose authenticator rejects the credentials. *)
Definition example_credentials : SourceCredentials :=
  {| sc_source_type := py "webhook"; sc_source_id := py "webhook_endpoint_456";
     sc_credentials := {[ py "webhook_secret" := PyStr (py "whsec_1234") ]};
     sc_credential_permissions := [py "chat"; py "tools.*"];
     sc_expires_at := None; sc_metadata := ∅ |}.

Definition invalid_signature : StageError :=
  {| error_type := py "authentication_error"; message := py "invalid signature";
     component := py "WebhookAuthenticator"; details := ∅ |}.

Definition rejecting_authenticate (credentials : SourceCredentials)
    (request_context : gmap pystr PyVal)
    : Outcome (Result AuthContext StageError) :=
  Returned (Error invalid_signature).

Definition unreachable_validate (raw_input : PyVal) (auth_context : AuthContext)
    : Outcome (Result ValidatedInput StageError) :=
  Raised (mkExc (py "RuntimeError") (py "validator called")).

Definition unreachable_process (validated_input : ValidatedInput)
    (auth_context : AuthContext) : Outcome (Result JanusEvent StageError) :=
  Raised (mkExc (py "RuntimeError") (py "processor called")).

Definition example_world : World :=
  {| result :=
       {| event := None; success := false; error := None;
          total_processing_time_ms := 0%Z; stage_timings := ∅;
          stages_completed := []; processing_context := None;
          pipeline_id := []; started_at := 0%Z; completed_at := None |};
     ticks := 0 |}.

End Pipeline.

(** * Properties *)

(** ** Strings and sorting *)
Section strings.
Implicit Types (s x c p : pystr) (l : list pystr).

Lemma endswith_iff s suf : endswith s suf = true ↔ ∃ x, s = x ++ suf.
Proof. unfold endswith. rewrite bool_decide_eq_true. reflexivity. Qed.

Lemma startswith_iff s pre : Is_true (startswith s pre) ↔ pre `prefix_of` s.
Proof. unfold startswith. apply bool_decide_spec. Qed.

Lemma slice_drop_last_app x suf : slice_drop_last (length suf) (x ++ suf) = x.
Proof.
  unfold slice_drop_last. rewrite length_app, Nat.add_sub.
  apply take_app_length.
Qed.

Lemma strip_wildcard_suffix x : slice_drop_last 2 (x ++ py ".*") = x.
Proof. exact (slice_drop_last_app x (py ".*")). Qed.

#[global] Instance str_le_trans : Transitive str_le.
Proof.
  intros a b c [->|Hab] [->|Hbc]; unfold str_le; auto.
  right. by trans b.
Qed.

#[global] Instance str_le_total : Total str_le.
Proof.
  intros a b. unfold str_le.
  destruct (trichotomy str_lt a b) as [?|[?|?]]; auto.
Qed.

Lemma str_lt_asym a b : str_lt a b → str_lt b a → False.
Proof. intros Hab Hba. apply (irreflexivity str_lt a). by trans b. Qed.

(** A sorted list without repetition is strictly increasing. *)
Lemma sorted_nodup_strict l :
  Sorted str_le l → NoDup l → StronglySorted str_lt l.
Proof.
  intros Hs%Sorted_StronglySorted Hnd; [|apply _].
  induction Hs as [|a l Hl IH Ha]; [constructor|].
  apply NoDup_cons in Hnd as [Hnot Hnd].
  constructor; [by apply IH|].
  rewrite Forall_forall in Ha |- *. intros b Hb.
  destruct (Ha b Hb) as [->|?]; [by destruct Hnot|done].
Qed.

Lemma strict_nodup l : StronglySorted str_lt l → NoDup l.
Proof.
  induction 1 as [|a l Hl IH Ha]; constructor; [|done].
  intros Hin. rewrite Forall_forall in Ha.
  by apply (irreflexivity str_lt a), Ha.
Qed.

(** Two strictly increasing lists with the same members are equal. *)
Lemma strict_sorted_ext l1 l2 :
  StronglySorted str_lt l1 → StronglySorted str_lt l2 →
  (∀ p, p ∈ l1 ↔ p ∈ l2) → l1 = l2.
Proof.
  intros H1 H2 Hmem.
  apply (StronglySorted_unique_strong str_lt); [|done|done|].
  - intros a b _ _ Hab Hba. by destruct (str_lt_asym a b).
  - apply NoDup_Permutation; auto using strict_nodup.
Qed.

Lemma elem_of_sorted p l : p ∈ sorted l ↔ p ∈ l.
Proof. unfold sorted. by rewrite merge_sort_Permutation. Qed.

Lemma sorted_elements_strict (S : gset pystr) :
  StronglySorted str_lt (sorted (elements S)).
Proof.
  apply sorted_nodup_strict.
  - apply (Sorted_merge_sort str_le).
  - unfold sorted. rewrite merge_sort_Permutation. apply NoDup_elements.
Qed.
End strings.

(** ** Permission resolution *)
Section permissions.
Import Authentication.
Implicit Types (cred user : list pystr) (p c x : pystr).

Lemma elem_of_matching prefix user p :
  p ∈ matching prefix user ↔ p ∈ user ∧ (prefix ++ py ".") `prefix_of` p.
Proof.
  unfold matching. rewrite list_elem_of_filter, startswith_iff. tauto.
Qed.

Lemma elem_of_expand_loop cred user acc p :
  p ∈ expand_loop cred user acc ↔ p ∈ acc ∨ in_expansion cred user p.
Proof.
  revert acc. induction cred as [|c cred IH]; intros acc; simpl.
  - split; [auto|]. intros [?|(c & Hc & _)]; [done|]. by apply elem_of_nil in Hc.
  - destruct (endswith c (py ".*")) eqn:Hw.
    + apply endswith_iff in Hw as [x ->].
      rewrite IH, elem_of_app, strip_wildcard_suffix, elem_of_matching.
      split.
      * intros [[?|[??]]|(c & Hc & Hcase)]; [by left| |].
        -- right. exists (x ++ py ".*"). split; [left|]. left. by exists x.
        -- right. exists c. split; [by right|done].
      * intros [?|(c & Hc & Hcase)]; [by left; left|].
        apply elem_of_cons in Hc as [->|Hc].
        -- destruct Hcase as [(y & Hy & ? & ?)|[Hno _]].
           ++ apply app_inv_tail in Hy as <-. by left; right.
           ++ by destruct (Hno x).
        -- right. by exists c.
    + assert (∀ x, c ≠ x ++ py ".*") as Hno.
      { intros x ->. apply not_true_iff_false in Hw. apply Hw, endswith_iff. by exists x. }
      rewrite IH, elem_of_app, list_elem_of_singleton.
      split.
      * intros [[?| ->]|(c' & Hc & Hcase)]; [by left| |].
        -- right. exists c. split; [left|]. by right.
        -- right. exists c'. split; [by right|done].
      * intros [?|(c' & Hc & Hcase)]; [by left; left|].
        apply elem_of_cons in Hc as [->|Hc].
        -- destruct Hcase as [(y & Hy & _)|[_ Heq]]; [by destruct (Hno y)|].
           left; right. exact Heq.
        -- right. by exists c'.
Qed.

Lemma elem_of_expand_wildcards cred user p :
  p ∈ _expand_wildcards cred user ↔ in_expansion cred user p.
Proof.
  unfold _expand_wildcards. rewrite elem_of_elements, elem_of_list_to_set.
  rewrite elem_of_expand_loop. split; [|auto].
  intros [H|H]; [by apply elem_of_nil in H|done].
Qed.

Lemma elem_of_compute_final_permissions cred user p :
  p ∈ compute_final_permissions cred user ↔ in_expansion cred user p ∧ p ∈ user.
Proof.
  unfold compute_final_permissions.
  rewrite elem_of_sorted, elem_of_elements, elem_of_intersection.
  by rewrite !elem_of_list_to_set, elem_of_expand_wildcards.
Qed.

Lemma compute_final_permissions_strict cred user :
  StronglySorted str_lt (compute_final_permissions cred user).
Proof. apply sorted_elements_strict. Qed.

(** The example in the docstring of [_expand_wildcards], as a set. *)
Example expand_wildcards_docstring :
  (list_to_set
     (_expand_wildcards
        [py "tools.*"; py "chat"]
        [py "tools.calculator"; py "tools.time"; py "chat"; py "memory.read"])
   : gset pystr)
  = list_to_set [py "tools.calculator"; py "tools.time"; py "chat"].
Proof. by vm_compute. Qed.
End permissions.

(** *** The list-level algorithm of the specification *)
Section permission_algorithm.
Import Authentication.
Implicit Types (cred user l : list pystr) (p q c x : pystr).

Lemma strip_wildcard_Some c x : strip_wildcard c = Some x ↔ c = x ++ py ".*".
Proof.
  unfold strip_wildcard. split.
  - destruct (reverse c) as [|a [|b r]] eqn:Hr; try done.
    case_decide as Hab; [|done]. destruct Hab as [-> ->]. intros [= <-].
    rewrite <-(reverse_involutive c), Hr.
    by rewrite !reverse_cons, <-app_assoc.
  - intros ->. rewrite reverse_app.
    change (reverse (py ".*")) with [42; 46]. simpl.
    destruct (decide (42 = 42 ∧ 46 = 46)) as [_|Hab].
    + by rewrite reverse_involutive.
    + by destruct Hab.
Qed.

Lemma strip_wildcard_None c : strip_wildcard c = None ↔ ∀ x, c ≠ x ++ py ".*".
Proof.
  split.
  - intros Hn x Hx%strip_wildcard_Some. congruence.
  - intros Hno. destruct (strip_wildcard c) as [x|] eqn:Hs; [|done].
    apply strip_wildcard_Some in Hs. by destruct (Hno x).
Qed.

Lemma elem_of_spec_expand_entry user c p :
  p ∈ spec_expand_entry user c ↔
    (∃ x, c = x ++ py ".*" ∧ p ∈ user ∧ (x ++ py ".") `prefix_of` p)
    ∨ ((∀ x, c ≠ x ++ py ".*") ∧ p = c).
Proof.
  unfold spec_expand_entry. destruct (strip_wildcard c) as [x|] eqn:Hs.
  - apply strip_wildcard_Some in Hs as ->. rewrite list_elem_of_filter. split.
    + intros [??]. left. by exists x.
    + intros [(y & Hy & ? & ?)|[Hno _]]; [|by destruct (Hno x)].
      by apply app_inv_tail in Hy as <-.
  - rewrite list_elem_of_singleton.
    pose proof (proj1 (strip_wildcard_None c) Hs) as Hno. split.
    + intros ->. by right.
    + intros [(y & Hy & _)|[_ ?]]; [by destruct (Hno y)|done].
Qed.

Lemma elem_of_spec_insert p q l : q ∈ spec_insert p l ↔ q = p ∨ q ∈ l.
Proof.
  induction l as [|a l IH]; simpl.
  - rewrite list_elem_of_singleton, elem_of_nil. tauto.
  - repeat case_decide; subst; rewrite ?elem_of_cons, ?IH; tauto.
Qed.

Lemma spec_insert_strict p l :
  StronglySorted str_lt l → StronglySorted str_lt (spec_insert p l).
Proof.
  induction 1 as [|a l Hl IH Ha]; simpl.
  - repeat constructor.
  - repeat case_decide; subst.
    + by constructor.
    + constructor; [by constructor|].
      constructor; [done|].
      eapply Forall_impl; [exact Ha|]. intros b Hb. by trans a.
    + constructor; [done|].
      rewrite Forall_forall in Ha |- *. intros b [->|Hb]%elem_of_spec_insert; [|by apply Ha].
      destruct (trichotomy str_lt p a) as [?|[?|?]]; done.
Qed.

Lemma elem_of_spec_final_permissions cred user p :
  p ∈ spec_final_permissions cred user ↔ in_expansion cred user p ∧ p ∈ user.
Proof.
  unfold spec_final_permissions.
  assert (∀ l, p ∈ foldr spec_insert [] l ↔ p ∈ l) as ->.
  { induction l as [|a l IH]; simpl; [done|].
    by rewrite elem_of_spec_insert, IH, elem_of_cons. }
  rewrite list_elem_of_filter, list_elem_of_bind. unfold in_expansion.
  split.
  - intros [? (c & Hp & Hc)]. split; [|done].
    exists c. split; [done|]. by apply elem_of_spec_expand_entry.
  - intros [(c & Hc & Hp) ?]. split; [done|].
    exists c. split; [|done]. by apply elem_of_spec_expand_entry.
Qed.

Lemma spec_final_permissions_strict cred user :
  StronglySorted str_lt (spec_final_permissions cred user).
Proof.
  unfold spec_final_permissions.
  generalize (filter (λ p, p ∈ user) (cred ≫= spec_expand_entry user)).
  induction l as [|a l IH]; simpl; [constructor|by apply spec_insert_strict].
Qed.
End permission_algorithm.

(** *** Claims about [compute_final_permissions] *)
Section permission_claims.
Import Authentication.
Implicit Types (cred user : list pystr) (p q c x : pystr).

(** C1.  [compute_final_permissions] returns exactly the result of the
    specified algorithm: wildcard entries [X.*] are replaced by the user
    permissions with prefix [X.], other entries are kept, the union is
    intersected with the user permissions, and the result is strictly
    increasing in lexicographic order (sorted, no duplicates).  On
    [["chat","tools.*"]] and [["chat","tools.calculator","memory.read"]]
    the result is [["chat","tools.calculator"]]. *)
Theorem compute_final_permissions_algorithm :
  (∀ cred user,
     compute_final_permissions cred user = spec_final_permissions cred user
     ∧ StronglySorted str_lt (compute_final_permissions cred user)
     ∧ ∀ p, p ∈ compute_final_permissions cred user ↔
            in_expansion cred user p ∧ p ∈ user)
  ∧ compute_final_permissions
      [py "chat"; py "tools.*"]
      [py "chat"; py "tools.calculator"; py "memory.read"]
    = [py "chat"; py "tools.calculator"].
Proof.
  split; [|by vm_compute].
  intros cred user. split; [|split].
  - apply strict_sorted_ext.
    + apply compute_final_permissions_strict.
    + apply spec_final_permissions_strict.
    + intros p. by rewrite elem_of_compute_final_permissions,
        elem_of_spec_final_permissions.
  - apply compute_final_permissions_strict.
  - apply elem_of_compute_final_permissions.
Qed.

(** C2.  Every granted permission is a user permission and belongs to the
    wildcard expansion of the credential permissions, both as the code
    computes it ([_expand_wildcards]) and as the set described in words
    ([in_expansion]). *)
Theorem granted_permissions_subset cred user :
  Forall (λ p, p ∈ user
               ∧ p ∈ _expand_wildcards cred user
               ∧ in_expansion cred user p)
         (compute_final_permissions cred user).
Proof.
  apply Forall_forall. intros p [Hexp Hu]%elem_of_compute_final_permissions.
  by rewrite elem_of_expand_wildcards.
Qed.

(** C6.  The result depends only on the sets of entries of the two
    arguments, and it is sorted lexicographically without duplicates. *)
Theorem compute_final_permissions_set_invariant (A A' B B' : list pystr) :
  (∀ p, p ∈ A ↔ p ∈ A') →
  (∀ p, p ∈ B ↔ p ∈ B') →
  compute_final_permissions A B = compute_final_permissions A' B'
  ∧ Sorted str_le (compute_final_permissions A B)
  ∧ NoDup (compute_final_permissions A B).
Proof.
  intros HA HB. split; [|split].
  - apply strict_sorted_ext; try apply compute_final_permissions_strict.
    intros p. rewrite !elem_of_compute_final_permissions, HB.
    unfold in_expansion. setoid_rewrite HA. by setoid_rewrite HB.
  - apply (Sorted_merge_sort str_le).
  - apply strict_nodup, compute_final_permissions_strict.
Qed.

Lemma compute_final_permissions_set_invariant_witness :
  compute_final_permissions
    [py "tools.*"; py "chat"; py "chat"] [py "tools.time"; py "chat"; py "tools.time"]
  = compute_final_permissions
    [py "chat"; py "tools.*"] [py "chat"; py "tools.time"]
  ∧ Sorted str_le (compute_final_permissions
      [py "tools.*"; py "chat"; py "chat"] [py "tools.time"; py "chat"; py "tools.time"])
  ∧ NoDup (compute_final_permissions
      [py "tools.*"; py "chat"; py "chat"] [py "tools.time"; py "chat"; py "tools.time"]).
Proof.
  apply compute_final_permissions_set_invariant;
    intros p; rewrite !elem_of_cons, !elem_of_nil; tauto.
Defined.
End permission_claims.

(** *** The reach of one wildcard entry *)
Section wildcard_reach.
Import Authentication.
Implicit Types (cred user : list pystr) (p q c x y : pystr).

(** Two inputs on which the claim as worded fails.  A user who holds the
    string [tools.*] gets it back through the expansion of the credential
    entry [tools.*]; and the bare [a.b] of the entry [a.b.*] is granted
    through the other wildcard [a.*]. *)
Lemma wildcard_claim_counterexample :
  (compute_final_permissions [py "tools.*"] [py "tools.*"] = [py "tools.*"]
   ∧ matching (py "tools") [py "tools.*"] = [py "tools.*"]
   ∧ ¬ wildcard_claim_as_worded (py "tools") [py "tools.*"] [py "tools.*"])
  ∧ (compute_final_permissions [py "a.b.*"; py "a.*"] [py "a.b"] = [py "a.b"]
     ∧ ¬ wildcard_claim_as_worded (py "a.b") [py "a.b.*"; py "a.*"] [py "a.b"]).
Proof.
  split; [split; [by vm_compute|split; [by vm_compute|]]|split; [by vm_compute|]].
  - intros Hclaim. destruct Hclaim as (_ & _ & Hself); [by left|].
    apply Hself. split.
    + replace (matching (py "tools") [py "tools.*"]) with [py "tools.*"] by by vm_compute.
      by left.
    + replace (compute_final_permissions [py "tools.*"] [py "tools.*"])
        with [py "tools.*"] by by vm_compute.
      by left.
  - intros Hclaim. destruct Hclaim as (_ & Hbare & _); [by left|].
    destruct Hbare as (Hin & _).
    + replace (compute_final_permissions [py "a.b.*"; py "a.*"] [py "a.b"])
        with [py "a.b"] by by vm_compute.
      by left.
    + apply elem_of_cons in Hin as [Heq|Hin]; [by vm_compute in Heq|].
      apply elem_of_cons in Hin as [Heq|Hin]; [by vm_compute in Heq|].
      by apply elem_of_nil in Hin.
Qed.

Lemma prefix_longer x p : (x ++ py ".") `prefix_of` p → (length x < length p)%nat.
Proof. intros [k ->]. rewrite !length_app. simpl. lia. Qed.

(** C10, amended.  For a credential list holding the wildcard entry [x.*]:
    the entry matches exactly the user permissions with prefix [x.], all of
    them longer than [x], so never the bare [x]; the bare [x] is in the
    result only if the user holds it and it is a non-wildcard credential
    entry or falls under another wildcard entry [y.*]; and [x.*] itself is
    matched by its own expansion, and is in the result, exactly when the
    user holds the string [x.*]. *)
Theorem wildcard_reach x cred user :
  (x ++ py ".*") ∈ cred →
  (∀ p, p ∈ matching x user ↔ p ∈ user ∧ (x ++ py ".") `prefix_of` p)
  ∧ (∀ p, p ∈ matching x user → (length x < length p)%nat)
  ∧ (x ∉ matching x user)
  ∧ (x ∈ compute_final_permissions cred user →
     x ∈ user ∧ ((x ∈ cred ∧ ∀ y, x ≠ y ++ py ".*")
                 ∨ ∃ y, (y ++ py ".*") ∈ cred ∧ (y ++ py ".") `prefix_of` x))
  ∧ ((x ++ py ".*") ∈ matching x user ↔ (x ++ py ".*") ∈ user)
  ∧ ((x ++ py ".*") ∈ compute_final_permissions cred user ↔ (x ++ py ".*") ∈ user).
Proof.
  intros Hcred.
  assert ((x ++ py ".") `prefix_of` (x ++ py ".*")) as Hself.
  { exists (py "*"). by rewrite <-app_assoc. }
  split; [intros p; apply elem_of_matching|].
  split; [intros p [_ Hp]%elem_of_matching; by apply prefix_longer|].
  split; [intros [_ Hp%prefix_longer]%elem_of_matching; lia|].
  split; [|split].
  - intros [(c & Hc & Hcase) Hu]%elem_of_compute_final_permissions.
    split; [done|].
    destruct Hcase as [(y & -> & _ & Hpre)|[Hno ->]].
    + right. by exists y.
    + by left.
  - rewrite elem_of_matching. tauto.
  - rewrite elem_of_compute_final_permissions. split; [tauto|].
    intros Hu. split; [|done].
    exists (x ++ py ".*"). split; [done|]. left. by exists x.
Qed.

Lemma wildcard_reach_witness :
  (∀ p, p ∈ matching (py "tools") [py "tools.time"; py "tools"; py "chat"] ↔
        p ∈ [py "tools.time"; py "tools"; py "chat"]
        ∧ (py "tools" ++ py ".") `prefix_of` p)
  ∧ (∀ p, p ∈ matching (py "tools") [py "tools.time"; py "tools"; py "chat"] →
          (length (py "tools") < length p)%nat)
  ∧ (py "tools" ∉ matching (py "tools") [py "tools.time"; py "tools"; py "chat"])
  ∧ (py "tools" ∈ compute_final_permissions [py "chat"; py "tools.*"]
                     [py "tools.time"; py "tools"; py "chat"] →
     py "tools" ∈ [py "tools.time"; py "tools"; py "chat"]
     ∧ ((py "tools" ∈ [py "chat"; py "tools.*"] ∧ ∀ y, py "tools" ≠ y ++ py ".*")
        ∨ ∃ y, (y ++ py ".*") ∈ [py "chat"; py "tools.*"]
               ∧ (y ++ py ".") `prefix_of` py "tools"))
  ∧ ((py "tools" ++ py ".*") ∈ matching (py "tools") [py "tools.time"; py "tools"; py "chat"]
     ↔ (py "tools" ++ py ".*") ∈ [py "tools.time"; py "tools"; py "chat"])
  ∧ ((py "tools" ++ py ".*") ∈ compute_final_permissions [py "chat"; py "tools.*"]
        [py "tools.time"; py "tools"; py "chat"]
     ↔ (py "tools" ++ py ".*") ∈ [py "tools.time"; py "tools"; py "chat"]).
Proof.
  apply (wildcard_reach (py "tools") [py "chat"; py "tools.*"]
           [py "tools.time"; py "tools"; py "chat"]).
  right. left.
Defined.
End wildcard_reach.

(** ** Validation: content type and input size *)
Section content_type.
Import Validation.
Implicit Types (d : gmap pystr PyVal) (s : pystr).

Lemma startswith_char s (c : N) :
  startswith s [c] = match s with a :: _ => bool_decide (a = c) | [] => false end.
Proof.
  unfold startswith. destruct s as [|a s].
  - apply bool_decide_eq_false. intros [k Hk]. discriminate.
  - apply bool_decide_ext. split.
    + intros [k Hk]. by injection Hk.
    + intros ->. by exists s.
Qed.

Lemma detect_content_type_str d s :
  d !! py "text" = Some (PyStr s) →
  _detect_content_type d =
    Returned (if leading_mark s then py "command"
              else if py_in (py "attachments") d then py "text_with_attachments"
              else py "text").
Proof.
  intros Ht. unfold _detect_content_type. rewrite Ht. simpl.
  change (py "/") with [47]. change (py "!") with [33].
  rewrite !startswith_char. unfold leading_mark.
  destruct s as [|a s]; [by destruct (py_in _ d)|].
  destruct (decide (a = 47)) as [->|Hs]; [reflexivity|].
  rewrite (bool_decide_eq_false_2 (a = 47)) by done.
  destruct (decide (a = 33)) as [->|Hb]; [reflexivity|].
  rewrite (bool_decide_eq_false_2 (a = 33)) by done.
  rewrite (bool_decide_eq_false_2 (a = 47 ∨ a = 33)) by tauto.
  by destruct (py_in _ d).
Qed.

(** C5 as worded fails: a mapping with an [attachments] key but no [text]
    key is typed [unknown], not [text_with_attachments]; and a mapping with
    both a plain [text] and a [file] key is typed [text], not
    [file_upload]. *)
Lemma detect_content_type_counterexample :
  (_detect_content_type {[ py "attachments" := PyList [] ]} = Returned (py "unknown")
   ∧ spec_content_type {[ py "attachments" := PyList [] ]} = py "text_with_attachments")
  ∧ (_detect_content_type
       (<[ py "file" := PyStr (py "a.pdf") ]> {[ py "text" := PyStr (py "hello") ]})
     = Returned (py "text")
     ∧ spec_content_type
         (<[ py "file" := PyStr (py "a.pdf") ]> {[ py "text" := PyStr (py "hello") ]})
       = py "file_upload")
  ∧ ¬ (∀ d, _detect_content_type d = Returned (spec_content_type d)).
Proof.
  split; [by vm_compute|]. split; [by vm_compute|].
  intros Hall. specialize (Hall {[ py "attachments" := PyList [] ]}).
  by vm_compute in Hall.
Qed.

(** C5, amended.  With a [text] key holding a string: a leading [/] or [!]
    gives [command]; otherwise an [attachments] key gives
    [text_with_attachments], and no such key gives [text].  Without a
    [text] key: a [file] key gives [file_upload], otherwise [unknown].  In
    particular [{"text": "/help"}] is a command, [{"text": "hello"}] is
    text and [{"file": v}] is a file upload. *)
Theorem detect_content_type_rules d :
  (∀ s, d !! py "text" = Some (PyStr s) → leading_mark s = true →
        _detect_content_type d = Returned (py "command"))
  ∧ (∀ s, d !! py "text" = Some (PyStr s) → leading_mark s = false →
          is_Some (d !! py "attachments") →
          _detect_content_type d = Returned (py "text_with_attachments"))
  ∧ (∀ s, d !! py "text" = Some (PyStr s) → leading_mark s = false →
          d !! py "attachments" = None →
          _detect_content_type d = Returned (py "text"))
  ∧ (d !! py "text" = None → is_Some (d !! py "file") →
     _detect_content_type d = Returned (py "file_upload"))
  ∧ (d !! py "text" = None → d !! py "file" = None →
     _detect_content_type d = Returned (py "unknown"))
  ∧ _detect_content_type {[ py "text" := PyStr (py "/help") ]} = Returned (py "command")
  ∧ _detect_content_type {[ py "text" := PyStr (py "hello") ]} = Returned (py "text")
  ∧ (∀ v, _detect_content_type {[ py "file" := v ]} = Returned (py "file_upload")).
Proof.
  split; [|split; [|split; [|split; [|split; [|split; [|split]]]]]].
  - intros s Ht Hm. by rewrite (detect_content_type_str d s Ht), Hm.
  - intros s Ht Hm Ha. rewrite (detect_content_type_str d s Ht), Hm.
    unfold py_in. by rewrite bool_decide_eq_true_2.
  - intros s Ht Hm Ha. rewrite (detect_content_type_str d s Ht), Hm.
    unfold py_in. rewrite bool_decide_eq_false_2; [done|].
    rewrite Ha. by intros [? ?].
  - intros Ht Hf. unfold _detect_content_type, py_in. rewrite Ht.
    by rewrite bool_decide_eq_true_2.
  - intros Ht Hf. unfold _detect_content_type, py_in. rewrite Ht.
    rewrite bool_decide_eq_false_2; [done|]. rewrite Hf. by intros [? ?].
  - by vm_compute.
  - by vm_compute.
  - intros v. unfold _detect_content_type, py_in.
    rewrite lookup_singleton_ne by (by vm_compute).
    rewrite lookup_singleton_eq. by rewrite bool_decide_eq_true_2.
Qed.

Lemma detect_content_type_rules_witness :
  _detect_content_type
    (<[ py "attachments" := PyList [] ]> {[ py "text" := PyStr (py "see file") ]})
  = Returned (py "text_with_attachments").
Proof.
  apply (proj1 (proj2 (detect_content_type_rules _)) (py "see file")).
  - by vm_compute.
  - by vm_compute.
  - exists (PyList []). by vm_compute.
Defined.
End content_type.

Section input_size.
Import Validation.
Variable json_dumps_default_str : PyVal → Outcome pystr.
Variable py_str : PyVal → Outcome pystr.
Implicit Types (s bs : pystr) (c : N).

Lemma utf8_encode_cp_width c bs :
  utf8_encode_cp c = Returned bs → length bs = utf8_width c.
Proof.
  unfold utf8_encode_cp, utf8_width.
  destruct (c <? 128) eqn:H1; [by intros [= <-]|].
  destruct (c <? 2048) eqn:H2; [by intros [= <-]|].
  destruct ((55296 <=? c) && (c <=? 57343)); [done|].
  destruct (c <? 65536) eqn:H3; [by intros [= <-]|].
  destruct (c <? 1114112); [by intros [= <-]|done].
Qed.

(** The length of the encoded form is the sum of the widths. *)
Lemma encode_utf8_length s bs :
  encode_utf8 s = Returned bs → length bs = sum_list (utf8_width <$> s).
Proof.
  revert bs. induction s as [|c s IH]; intros bs; simpl.
  - by intros [= <-].
  - destruct (utf8_encode_cp c) as [b|e] eqn:Hc; [|done].
    destruct (encode_utf8 s) as [t|e] eqn:Hs; [|done].
    intros [= <-]. rewrite length_app, (IH t eq_refl).
    by rewrite (utf8_encode_cp_width c b Hc).
Qed.

(** Text made of code points that UTF-8 can encode always encodes. *)
Lemma encode_utf8_total s :
  Forall (λ c, c < 0x110000 ∧ ¬ (0xD800 ≤ c ≤ 0xDFFF)) s →
  ∃ bs, encode_utf8 s = Returned bs.
Proof.
  induction 1 as [|c s [Hc Hs] _ [t Ht]]; simpl; [by eexists|].
  rewrite Ht. unfold utf8_encode_cp.
  destruct (c <? 128); [by eexists|].
  destruct (c <? 2048); [by eexists|].
  destruct ((55296 <=? c) && (c <=? 57343)) eqn:Hsur.
  { apply andb_true_iff in Hsur as [?%N.leb_le ?%N.leb_le]. by destruct Hs. }
  destruct (c <? 65536); [by eexists|].
  destruct (c <? 1114112) eqn:Hmax; [by eexists|].
  apply N.ltb_ge in Hmax. lia.
Qed.

(** ASCII text is its own UTF-8 form. *)
Lemma encode_utf8_ascii s : Forall (λ c, c < 128) s → encode_utf8 s = Returned s.
Proof.
  induction 1 as [|c s Hc _ IH]; simpl; [done|].
  rewrite IH. unfold utf8_encode_cp.
  by rewrite (proj2 (N.ltb_lt c 128) Hc).
Qed.

(** C8.  The size of a string is the length of its UTF-8 form, the size of a
    byte buffer is its length, the size of a mapping is the length of the
    UTF-8 form of its JSON serialisation, and the size of anything else is
    the length of the UTF-8 form of its string form.  The length of a UTF-8
    form is the sum of the widths of the code points (so text without
    surrogates always has a size), and a string of exactly 10 ASCII
    characters has size 10. *)
Theorem calculate_input_size_cases :
  (∀ s, _calculate_input_size json_dumps_default_str py_str (PyStr s)
        = py_len <$> encode_utf8 s)
  ∧ (∀ b, _calculate_input_size json_dumps_default_str py_str (PyBytes b)
          = Returned (py_len b))
  ∧ (∀ d, _calculate_input_size json_dumps_default_str py_str (PyDict d)
          = json_dumps_default_str (PyDict d) ≫= λ js, py_len <$> encode_utf8 js)
  ∧ (∀ v, v = PyNone ∨ (∃ b, v = PyBool b) ∨ (∃ z, v = PyInt z) ∨ (∃ l, v = PyList l) →
          _calculate_input_size json_dumps_default_str py_str v
          = py_str v ≫= λ s, py_len <$> encode_utf8 s)
  ∧ (∀ s bs, encode_utf8 s = Returned bs →
             py_len bs = Z.of_nat (sum_list (utf8_width <$> s)))
  ∧ (∀ s, Forall (λ c, c < 0x110000 ∧ ¬ (0xD800 ≤ c ≤ 0xDFFF)) s →
          _calculate_input_size json_dumps_default_str py_str (PyStr s)
          = Returned (Z.of_nat (sum_list (utf8_width <$> s))))
  ∧ (∀ s, length s = 10%nat → Forall (λ c, c < 128) s →
          _calculate_input_size json_dumps_default_str py_str (PyStr s)
          = Returned 10%Z).
Proof.
  split; [|split; [|split; [|split; [|split; [|split]]]]].
  - intros s. simpl. by destruct (encode_utf8 s).
  - done.
  - intros d. simpl. destruct (json_dumps_default_str (PyDict d)) as [js|e]; [|done].
    simpl. by destruct (encode_utf8 js).
  - intros v [->|[[b ->]|[[z ->]|[l ->]]]]; simpl;
      (destruct (py_str _) as [s|e]; [|done]); simpl; by destruct (encode_utf8 s).
  - intros s bs Hs. unfold py_len. by rewrite (encode_utf8_length s bs Hs).
  - intros s [bs Hs]%encode_utf8_total. simpl. rewrite Hs. simpl.
    unfold py_len. by rewrite (encode_utf8_length s bs Hs).
  - intros s Hlen Hascii. simpl. rewrite (encode_utf8_ascii s Hascii). simpl.
    unfold py_len. by rewrite Hlen.
Qed.
End input_size.

Lemma calculate_input_size_cases_witness :
  Validation._calculate_input_size (λ _, Returned (py "{}")) (λ _, Returned (py "None"))
    (PyStr (py "0123456789")) = Returned 10%Z.
Proof.
  apply (proj2 (proj2 (proj2 (proj2 (proj2 (proj2
    (calculate_input_size_cases (λ _, Returned (py "{}")) (λ _, Returned (py "None"))))))))).
  - reflexivity.
  - vm_compute. repeat constructor.
Defined.

(** ** Processing: the stream identifier *)
Section stream_id.
Import Models Processing.
Implicit Types (pc : ProcessingContext) (s : pystr).

Lemma generate_event_ids_stream uuid_event uuid_trace pc :
  generate_event_ids uuid_event uuid_trace pc !! py "stream_id"
  = Some (py_or_str (py_or (stream_id pc) (session_id (auth_context pc)))
                    (py "stream_" ++ slice_first 8 uuid_event)).
Proof.
  unfold generate_event_ids.
  rewrite lookup_insert_ne by (by vm_compute).
  rewrite lookup_insert_eq. done.
Qed.

(** C9 as worded fails when an identifier is set to the empty string: with
    [stream_id = ""] and a session [sess-1] the code takes the session
    identifier, while the worded precedence keeps the explicit (empty)
    stream identifier. *)
Lemma stream_id_precedence_counterexample :
  generate_event_ids example_uuid example_uuid
    (example_context (Some []) (Some (py "sess-1"))) !! py "stream_id"
  = Some (py "sess-1")
  ∧ stream_id_as_worded example_uuid (example_context (Some []) (Some (py "sess-1"))) = []
  ∧ ¬ (∀ e t pc, generate_event_ids e t pc !! py "stream_id"
                 = Some (stream_id_as_worded e pc)).
Proof.
  split; [by vm_compute|]. split; [by vm_compute|].
  intros Hall.
  specialize (Hall example_uuid example_uuid
                (example_context (Some []) (Some (py "sess-1")))).
  by vm_compute in Hall.
Qed.

(** C9, amended.  The stream identifier is the explicit
    [processing_context.stream_id] when that is a non-empty string;
    otherwise the [auth_context.session_id] when that is a non-empty string;
    otherwise ["stream_"] followed by the first 8 characters of the fresh
    event identifier.  The identifiers under [event_id] and [trace_id] are
    the two fresh ones. *)
Theorem stream_id_precedence uuid_event uuid_trace pc :
  let ids := generate_event_ids uuid_event uuid_trace pc in
  ids !! py "event_id" = Some uuid_event
  ∧ ids !! py "trace_id" = Some uuid_trace
  ∧ (∀ s, stream_id pc = Some s → s ≠ [] →
          ids !! py "stream_id" = Some s)
  ∧ (∀ s, stream_id pc = None ∨ stream_id pc = Some [] →
          session_id (auth_context pc) = Some s → s ≠ [] →
          ids !! py "stream_id" = Some s)
  ∧ (stream_id pc = None ∨ stream_id pc = Some [] →
     session_id (auth_context pc) = None ∨ session_id (auth_context pc) = Some [] →
     ids !! py "stream_id" = Some (py "stream_" ++ slice_first 8 uuid_event)).
Proof.
  intros ids. unfold ids. rewrite generate_event_ids_stream.
  split; [by vm_compute|]. split; [by vm_compute|]. split; [|split].
  - intros s -> Hs. by destruct s.
  - intros s Hst -> Hs. destruct s; [done|]. by destruct Hst as [->| ->].
  - by intros [->| ->] [->| ->].
Qed.

Lemma stream_id_precedence_witness :
  generate_event_ids example_uuid example_uuid
    (example_context None (Some (py "sess-1"))) !! py "stream_id"
  = Some (py "sess-1").
Proof.
  apply (proj1 (proj2 (proj2 (proj2
    (stream_id_precedence example_uuid example_uuid
       (example_context None (Some (py "sess-1")))))))).
  - left. reflexivity.
  - reflexivity.
  - by vm_compute.
Defined.
End stream_id.

(** ** Capabilities: choosing a provider *)
Section best_provider.
Import Capabilities.
Variable find_providers_with_capability : pystr → list pystr.
Implicit Types (required : list pystr) (preferred : option (list pystr)) (p q : pystr).

#[local] Abbreviation supports := (supports_all find_providers_with_capability).
#[local] Abbreviation loop := (candidates_loop find_providers_with_capability).
#[local] Abbreviation find_best :=
  (find_best_provider_for_requirements find_providers_with_capability).

Lemma candidates_loop_Some required (c0 : gset pystr) :
  ∃ c, loop required (Some c0) = Some c
       ∧ ∀ p, p ∈ c ↔ p ∈ c0 ∧ supports required p.
Proof.
  revert c0. induction required as [|cap required IH]; intros c0; simpl.
  - exists c0. split; [done|]. intros p. split; [|tauto].
    intros Hp. split; [done|]. intros c Hc. by apply elem_of_nil in Hc.
  - destruct (IH (c0 ∩ list_to_set (find_providers_with_capability cap))) as (c & -> & Hc).
    exists c. split; [done|]. intros p.
    rewrite Hc, elem_of_intersection, elem_of_list_to_set. unfold supports_all.
    split.
    + intros [[H0 Hcap] Hrest]. split; [done|].
      intros c' [->|Hc']%elem_of_cons; auto.
    + intros [H0 Hall]. split; [split; [done|]|].
      * apply Hall. by left.
      * intros c' Hc'. apply Hall. by right.
Qed.

(** The candidate set after the loop: nothing for an empty requirement
    list, else exactly the providers listed under every requirement. *)
Lemma candidates_loop_None required :
  match loop required None with
  | None => required = []
  | Some c => required ≠ [] ∧ ∀ p, p ∈ c ↔ supports required p
  end.
Proof.
  destruct required as [|cap required]; simpl; [done|].
  destruct (candidates_loop_Some required
              (list_to_set (find_providers_with_capability cap))) as (c & -> & Hc).
  split; [done|]. intros p. rewrite Hc, elem_of_list_to_set. unfold supports_all.
  split.
  - intros [Hcap Hrest] c' [->|Hc']%elem_of_cons; auto.
  - intros Hall. split; [apply Hall; by left|].
    intros c' Hc'. apply Hall. by right.
Qed.

Lemma head_elements_nonempty (c : gset pystr) :
  c ≠ ∅ → ∃ p rest, elements c = p :: rest ∧ p ∈ c.
Proof.
  intros Hne. destruct (elements c) as [|p rest] eqn:He.
  - by apply elements_empty_inv, leibniz_equiv in He.
  - exists p, rest. split; [done|]. apply elem_of_elements. rewrite He. by left.
Qed.

(** What the function returns, in terms of the providers that support all
    requirements. *)
Lemma find_best_spec required preferred :
  (required = [] ∨ ¬ ∃ p, supports required p) ∧ find_best required preferred = Returned None
  ∨ required ≠ [] ∧ ∃ p, find_best required preferred = Returned (Some p)
      ∧ supports required p
      ∧ ∀ pl q, preferred = Some pl → q ∈ pl → supports required q → p ∈ pl.
Proof.
  unfold find_best_provider_for_requirements.
  pose proof (candidates_loop_None required) as Hloop.
  destruct (loop required None) as [c|]; simpl.
  - destruct Hloop as [Hne Hc]. case_bool_decide as Hempty.
    + left. split; [|done]. right. intros [p Hp%Hc]. subst c. by apply not_elem_of_empty in Hp.
    + right. split; [done|].
      destruct preferred as [[|q0 pl]|]; simpl.
      * destruct (head_elements_nonempty c Hempty) as (p & rest & -> & Hp).
        exists p. split; [done|]. split; [by apply Hc|].
        intros pl q [= <-] Hq. by apply elem_of_nil in Hq.
      * case_bool_decide as Hpe.
        -- destruct (head_elements_nonempty c Hempty) as (p & rest & -> & Hp).
           exists p. split; [done|]. split; [by apply Hc|].
           intros pl' q [= <-] Hq Hsup. exfalso.
           apply (not_elem_of_empty (C:=gset pystr) q). rewrite <-Hpe.
           apply elem_of_intersection. split; [by apply Hc|].
           exact (proj2 (elem_of_list_to_set q (q0 :: pl)) Hq).
        -- destruct (head_elements_nonempty _ Hpe) as (p & rest & -> & Hp).
           apply elem_of_intersection in Hp as [Hp Hpl].
           exists p. split; [done|]. split; [by apply Hc|].
           intros pl' q [= <-] _ _.
           exact (proj1 (elem_of_list_to_set p (q0 :: pl)) Hpl).
      * destruct (head_elements_nonempty c Hempty) as (p & rest & -> & Hp).
        exists p. split; [done|]. split; [by apply Hc|]. by intros pl q [=].
  - left. split; [by left|done].
Qed.

(** C7 as worded fails for an empty requirement list: every provider
    supports all (zero) requirements, the registry does list [slack], and
    yet the function returns [None]. *)
Lemma find_best_provider_counterexample :
  find_best_provider_for_requirements example_registry [] None = Returned None
  ∧ py "slack" ∈ example_registry (py "text_processing")
  ∧ supports_all example_registry [] (py "slack")
  ∧ ¬ (∀ fp required preferred,
         find_best_provider_for_requirements fp required preferred = Returned None
         ↔ ¬ ∃ p, supports_all fp required p).
Proof.
  split; [done|]. split; [by left|]. split.
  - intros c Hc. by apply elem_of_nil in Hc.
  - intros Hall. destruct (Hall example_registry [] None) as [Hnone _].
    apply Hnone; [done|]. exists (py "slack"). intros c Hc. by apply elem_of_nil in Hc.
Qed.

(** C7, amended.  The function never raises.  It returns [None] exactly
    when the requirement list is empty or no provider supports all the
    required capabilities.  Otherwise it returns a provider that supports
    all of them, and one from the preferred list whenever some preferred
    provider supports all of them. *)
Theorem find_best_provider_selection required preferred :
  (∃ r, find_best_provider_for_requirements find_providers_with_capability
          required preferred = Returned r)
  ∧ (find_best_provider_for_requirements find_providers_with_capability
       required preferred = Returned None
     ↔ required = []
       ∨ ¬ ∃ p, supports_all find_providers_with_capability required p)
  ∧ (∀ p, find_best_provider_for_requirements find_providers_with_capability
            required preferred = Returned (Some p) →
          supports_all find_providers_with_capability required p
          ∧ ∀ pl q, preferred = Some pl → q ∈ pl →
                    supports_all find_providers_with_capability required q →
                    p ∈ pl).
Proof.
  destruct (find_best_spec required preferred)
    as [[Hcase Hr]|[Hne (p & Hr & Hsup & Hpref)]]; rewrite Hr.
  - split; [by eexists|]. split; [done|]. by intros p [=].
  - split; [by eexists|]. split.
    + split; [by intros [=]|]. intros [?|Hno]; [done|]. destruct Hno. by exists p.
    + by intros p' [= <-].
Qed.
End best_provider.

Lemma find_best_provider_selection_witness :
  Capabilities.supports_all Capabilities.example_registry
    [py "text_processing"; py "threading"] (py "slack")
  ∧ ∀ pl q, Some [py "api"; py "slack"] = Some pl → q ∈ pl →
            Capabilities.supports_all Capabilities.example_registry
              [py "text_processing"; py "threading"] q →
            py "slack" ∈ pl.
Proof.
  apply (proj2 (proj2 (find_best_provider_selection Capabilities.example_registry
           [py "text_processing"; py "threading"] (Some [py "api"; py "slack"])))).
  by vm_compute.
Defined.

(** ** Pipeline: the stage helpers *)
Section clock_arithmetic.
Import Pipeline.

Lemma py_int_finite x : PrimFloat.is_finite x = true → py_int x = Returned (float_trunc x).
Proof.
  unfold PrimFloat.is_finite, py_int.
  destruct (PrimFloat.is_nan x); [done|]. by destruct (PrimFloat.is_infinity x).
Qed.

Lemma py_int_elapsed (time_clock : TimeClock) m n :
  py_int (PrimFloat.mul (PrimFloat.sub (time_clock n) (time_clock m))
            FloatLiterals.thousand)
  = Returned (float_trunc
                (PrimFloat.mul (PrimFloat.sub (time_clock n) (time_clock m))
                   FloatLiterals.thousand)).
Proof. apply py_int_finite, time_reading_finite. Qed.

Lemma py_int_timedelta (utc_clock : UtcClock) m n :
  py_int (timedelta_ms (utc_clock n - utc_clock m))
  = Returned (float_trunc (timedelta_ms (utc_clock n - utc_clock m))).
Proof. apply py_int_finite, utc_reading_finite. Qed.

Lemma elapsed_ms_run (time_clock : TimeClock) m w :
  elapsed_ms time_clock (time_clock m) w
  = (Returned (float_trunc
                 (PrimFloat.mul (PrimFloat.sub (time_clock (ticks w)) (time_clock m))
                    FloatLiterals.thousand)),
     {| result := result w; ticks := S (ticks w) |}).
Proof.
  unfold elapsed_ms, time_time, evaluate, mbind, M_bind.
  by rewrite py_int_elapsed.
Qed.

Lemma bind_run {A B} (m : M A) (k : A → M B) w :
  (m ≫= k) w = match m w with
               | (Returned a, w') => k a w'
               | (Raised e, w') => (Raised e, w')
               end.
Proof. reflexivity. Qed.
End clock_arithmetic.

(** Running a stage helper one statement at a time. *)
Ltac run_stage_step :=
  first
    [ rewrite bind_run
    | rewrite elapsed_ms_run
    | progress cbn [Pipeline.ticks Pipeline.result fst snd
                    Pipeline.event Pipeline.success Pipeline.error
                    Pipeline.total_processing_time_ms Pipeline.stage_timings
                    Pipeline.stages_completed Pipeline.processing_context
                    Pipeline.pipeline_id Pipeline.started_at Pipeline.completed_at]
    | progress cbv beta iota
    | progress unfold Pipeline.set_stage_timing, Pipeline.append_stage_completed,
        Pipeline.update_result, Pipeline.get_result, mret, Pipeline.M_ret ].

Ltac run_stage :=
  unfold Pipeline.try_except, Pipeline.time_time, Pipeline.await;
  repeat run_stage_step.

Section stages.
Import Models Pipeline.
Variable time_clock : TimeClock.
Variable authenticate :
  SourceCredentials → gmap pystr PyVal → Outcome (Result AuthContext StageError).
Variable validate : PyVal → AuthContext → Outcome (Result ValidatedInput StageError).
Variable processor_process :
  ValidatedInput → AuthContext → Outcome (Result JanusEvent StageError).

#[local] Abbreviation stage_ms := (Pipeline.stage_ms time_clock).

(** Each helper reads the clock twice, records the timing, and appends its
    name on success only. *)
Lemma execute_authentication_stage_world credentials request_context w :
  (execute_authentication_stage time_clock authenticate credentials request_context w).2
  = {| result := after_stage (py "authentication") (stage_ms (ticks w))
                   (is_ok (authenticate credentials request_context)) (result w);
       ticks := S (S (ticks w)) |}.
Proof.
  unfold execute_authentication_stage.
  destruct (authenticate credentials request_context) as [[a|e]|exc]; by run_stage.
Qed.

Lemma execute_validation_stage_world raw_input auth_context w :
  (execute_validation_stage time_clock validate raw_input auth_context w).2
  = {| result := after_stage (py "validation") (stage_ms (ticks w))
                   (is_ok (validate raw_input auth_context)) (result w);
       ticks := S (S (ticks w)) |}.
Proof.
  unfold execute_validation_stage.
  destruct (validate raw_input auth_context) as [[a|e]|exc]; by run_stage.
Qed.

Lemma execute_processing_stage_world validated_input auth_context w :
  (execute_processing_stage time_clock processor_process validated_input auth_context w).2
  = {| result := after_stage (py "processing") (stage_ms (ticks w))
                   (is_ok (processor_process validated_input auth_context)) (result w);
       ticks := S (S (ticks w)) |}.
Proof.
  unfold execute_processing_stage.
  destruct (processor_process validated_input auth_context) as [[a|e]|exc]; by run_stage.
Qed.

(** After the collaborator's outcome is known, each branch of the contract
    is a computation on the updated result. *)
Ltac contract_common :=
  eexists; split; [reflexivity|];
  split; [by rewrite lookup_insert_eq|];
  split; [reflexivity|].
Ltac contract_error := eexists; repeat split; by rewrite ?lookup_insert_eq.
Ltac contract_raised :=
  eexists; repeat split; simpl;
  first [ by rewrite lookup_insert_eq
        | rewrite lookup_insert_ne by (by vm_compute); by rewrite lookup_insert_eq ].
Ltac contract_run := unfold stage_contract; run_stage; simpl; contract_common.

(** C4.  Each of the three stage helpers keeps [stage_contract]: whatever
    its collaborator does (success, error result, raised exception) the
    helper returns and records the stage's timing; on an error result or an
    exception it returns a [PipelineError] naming the stage and carrying the
    pipeline id, with the stage error kept in [stage_errors] for an error
    result.  The timing recorded under the stage's name is
    [int((time.time() - stage_start) * 1000)] computed in binary64 from the
    two clock readings the helper takes: the reading at entry and the next
    one, subtracted, multiplied by [1000.0] and truncated towards zero. *)
Theorem stage_helpers_contract w :
  let timing :=
    float_trunc
      (PrimFloat.mul
         (PrimFloat.sub (time_clock (S (ticks w))) (time_clock (ticks w)))
         FloatLiterals.thousand) in
  (∀ credentials request_context,
     stage_contract (py "authentication") timing
       (authenticate credentials request_context) w
       (execute_authentication_stage time_clock authenticate credentials request_context w))
  ∧ (∀ raw_input auth_context,
       stage_contract (py "validation") timing
         (validate raw_input auth_context) w
         (execute_validation_stage time_clock validate raw_input auth_context w))
  ∧ (∀ validated_input auth_context,
       stage_contract (py "processing") timing
         (processor_process validated_input auth_context) w
         (execute_processing_stage time_clock processor_process
            validated_input auth_context w)).
Proof.
  intros timing. subst timing. split; [|split].
  - intros credentials request_context.
    unfold execute_authentication_stage.
    destruct (authenticate credentials request_context) as [[v|e]|exc];
      contract_run; [done|contract_error|contract_raised].
  - intros raw_input auth_context.
    unfold execute_validation_stage.
    destruct (validate raw_input auth_context) as [[v|e]|exc];
      contract_run; [done|contract_error|contract_raised].
  - intros validated_input auth_context.
    unfold execute_processing_stage.
    destruct (processor_process validated_input auth_context) as [[v|e]|exc];
      contract_run; [done|contract_error|contract_raised].
Qed.
End stages.

Lemma stage_helpers_contract_witness :
  Pipeline.stage_contract (py "authentication") 9%Z
    (Pipeline.rejecting_authenticate Pipeline.example_credentials ∅)
    Pipeline.example_world
    (Pipeline.execute_authentication_stage Pipeline.example_time_clock
       Pipeline.rejecting_authenticate Pipeline.example_credentials ∅
       Pipeline.example_world).
Proof.
  exact (proj1 (stage_helpers_contract Pipeline.example_time_clock
                  Pipeline.rejecting_authenticate Pipeline.unreachable_validate
                  Pipeline.unreachable_process Pipeline.example_world)
           Pipeline.example_credentials ∅).
Defined.

(** ** Pipeline: the fixed stage order *)
Section fixed_order.
Import Models Pipeline.
Variable time_clock : TimeClock.
Variable utc_clock : UtcClock.
Variable authenticate :
  SourceCredentials → gmap pystr PyVal → Outcome (Result AuthContext StageError).
Variable validate : PyVal → AuthContext → Outcome (Result ValidatedInput StageError).
Variable processor_process :
  ValidatedInput → AuthContext → Outcome (Result JanusEvent StageError).
Variable self_pipeline_id : pystr.

(** Running [process] up to the next collaborator whose outcome is not
    known yet; the integer conversions of the clock differences succeed. *)
Ltac run_process :=
  simpl; rewrite ?py_int_elapsed; simpl; rewrite ?py_int_timedelta; simpl.

Ltac unfold_process :=
  unfold process, create_pipeline_result, finish_failed, finish_succeeded,
    mark_completed, execute_authentication_stage, execute_validation_stage,
    execute_processing_stage, elapsed_ms, set_stage_timing, append_stage_completed,
    update_result, get_result, time_time, utcnow, try_except, await, evaluate,
    mbind, M_bind, mret, M_ret; simpl.

Ltac absent_key :=
  rewrite ?lookup_insert_ne by (by vm_compute); apply lookup_empty.

(** C3.  A run of the pipeline returns its result object, finalised.  If
    authentication fails, [stages_completed] is empty (so it holds neither
    ["validation"] nor ["processing"]) and the later stages were not run:
    they left no timing.  If validation fails, [stages_completed] is
    [["authentication"]] and processing was not run.  If processing fails,
    it is [["authentication","validation"]]; if all succeed, all three
    names are there in order.  Each stage helper appends its name exactly
    when its stage succeeds. *)
Theorem fixed_order_invariant raw_input credentials request_context w :
  let auth := authenticate credentials (default ∅ request_context) in
  let run := process time_clock utc_clock authenticate validate processor_process
               self_pipeline_id raw_input credentials request_context w in
  let r := result run.2 in
  run.1 = Returned r
  ∧ is_Some (completed_at r)
  ∧ (stage_succeeded auth = None →
     stages_completed r = []
     ∧ (py "validation" ∉ stages_completed r)
     ∧ (py "processing" ∉ stages_completed r)
     ∧ stage_timings r !! py "validation" = None
     ∧ stage_timings r !! py "processing" = None
     ∧ success r = false ∧ event r = None
     ∧ ∃ pe, error r = Some pe ∧ failed_stage pe = py "authentication")
  ∧ (∀ a, stage_succeeded auth = Some a →
          stage_succeeded (validate raw_input a) = None →
          stages_completed r = [py "authentication"]
          ∧ stage_timings r !! py "processing" = None
          ∧ success r = false ∧ event r = None
          ∧ ∃ pe, error r = Some pe ∧ failed_stage pe = py "validation")
  ∧ (∀ a v, stage_succeeded auth = Some a →
            stage_succeeded (validate raw_input a) = Some v →
            stage_succeeded (processor_process v a) = None →
            stages_completed r = [py "authentication"; py "validation"]
            ∧ success r = false ∧ event r = None
            ∧ ∃ pe, error r = Some pe ∧ failed_stage pe = py "processing")
  ∧ (∀ a v e, stage_succeeded auth = Some a →
              stage_succeeded (validate raw_input a) = Some v →
              stage_succeeded (processor_process v a) = Some e →
              stages_completed r
              = [py "authentication"; py "validation"; py "processing"]
              ∧ success r = true ∧ event r = Some e ∧ error r = None)
  ∧ (∀ c rc w',
       stages_completed
         (result (execute_authentication_stage time_clock authenticate c rc w').2)
       = stages_completed (result w')
         ++ (if is_ok (authenticate c rc) then [py "authentication"] else []))
  ∧ (∀ i a w',
       stages_completed
         (result (execute_validation_stage time_clock validate i a w').2)
       = stages_completed (result w')
         ++ (if is_ok (validate i a) then [py "validation"] else []))
  ∧ (∀ v a w',
       stages_completed
         (result (execute_processing_stage time_clock processor_process v a w').2)
       = stages_completed (result w')
         ++ (if is_ok (processor_process v a) then [py "processing"] else [])).
Proof.
  intros auth run r. subst r run auth.
  split; [|split; [|split; [|split; [|split; [|split; [|split; [|split]]]]]]].
  - unfold_process.
    destruct (authenticate _ _) as [[a|e]|exc]; run_process; [|done..].
    destruct (validate _ _) as [[v|e]|exc]; run_process; [|done..].
    by destruct (processor_process _ _) as [[ev|e]|exc]; run_process.
  - unfold_process.
    destruct (authenticate _ _) as [[a|e]|exc]; run_process; [|done..].
    destruct (validate _ _) as [[v|e]|exc]; run_process; [|done..].
    by destruct (processor_process _ _) as [[ev|e]|exc]; run_process.
  - unfold_process.
    destruct (authenticate _ _) as [[a|e]|exc]; run_process; [done| |]; intros _.
    all: split; [done|]; split; [by intros ?%elem_of_nil|];
      split; [by intros ?%elem_of_nil|];
      split; [absent_key|]; split; [absent_key|];
      split; [done|]; split; [done|]; by eexists.
  - unfold_process. intros a.
    destruct (authenticate _ _) as [[a'|e]|exc]; run_process; [|done..].
    intros [= ->].
    destruct (validate _ _) as [[v|e]|exc]; run_process; [done| |]; intros _.
    all: split; [done|]; split; [absent_key|];
      split; [done|]; split; [done|]; by eexists.
  - unfold_process. intros a v.
    destruct (authenticate _ _) as [[a'|e]|exc]; run_process; [|done..].
    intros [= ->].
    destruct (validate _ _) as [[v'|e]|exc]; run_process; [|done..].
    intros [= ->].
    destruct (processor_process _ _) as [[ev|e]|exc]; run_process; [done| |]; intros _.
    all: split; [done|]; split; [done|]; split; [done|]; by eexists.
  - unfold_process. intros a v e.
    destruct (authenticate _ _) as [[a'|e']|exc]; run_process; [|done..].
    intros [= ->].
    destruct (validate _ _) as [[v'|e']|exc]; run_process; [|done..].
    intros [= ->].
    destruct (processor_process _ _) as [[ev|e']|exc]; run_process; [|done..].
    by intros [= ->].
  - intros c rc w'. rewrite execute_authentication_stage_world. simpl.
    destruct (is_ok _); [done|by rewrite app_nil_r].
  - intros i a w'. rewrite execute_validation_stage_world. simpl.
    destruct (is_ok _); [done|by rewrite app_nil_r].
  - intros v a w'. rewrite execute_processing_stage_world. simpl.
    destruct (is_ok _); [done|by rewrite app_nil_r].
Qed.
End fixed_order.

Lemma fixed_order_invariant_witness :
  let r := Pipeline.result
    (Pipeline.process Pipeline.example_time_clock Pipeline.example_utc_clock
       Pipeline.rejecting_authenticate Pipeline.unreachable_validate
       Pipeline.unreachable_process (py "pipeline_1")
       (PyStr (py "hello")) Pipeline.example_credentials None
       Pipeline.example_world).2 in
  Pipeline.stages_completed r = []
  ∧ (py "validation" ∉ Pipeline.stages_completed r)
  ∧ (py "processing" ∉ Pipeline.stages_completed r)
  ∧ Pipeline.stage_timings r !! py "validation" = None
  ∧ Pipeline.stage_timings r !! py "processing" = None
  ∧ Pipeline.success r = false ∧ Pipeline.event r = None
  ∧ ∃ pe, Pipeline.error r = Some pe
          ∧ Pipeline.failed_stage pe = py "authentication".
Proof.
  apply (proj1 (proj2 (proj2
    (fixed_order_invariant Pipeline.example_time_clock Pipeline.example_utc_clock
       Pipeline.rejecting_authenticate Pipeline.unreachable_validate
       Pipeline.unreachable_process (py "pipeline_1")
       (PyStr (py "hello")) Pipeline.example_credentials None
       Pipeline.example_world)))).
  reflexivity.
Defined.

(** ** Pipeline: the timings are binary64 values *)

(** The clock reads [0.0] and then [0.009]: [(0.009 - 0.0) * 1000] is
    [9.0] in binary64 (the exact product of the two floats lies just below
    9), and the stage records [9]. *)
Example stage_timing_nine_ms :
  Pipeline.stage_timings
    (Pipeline.result
       (Pipeline.execute_authentication_stage Pipeline.example_time_clock
          Pipeline.rejecting_authenticate Pipeline.example_credentials ∅
          Pipeline.example_world).2)
  !! py "authentication" = Some 9%Z.
Proof. by vm_compute. Qed.

(** A run that starts at the epoch and is completed 1.001 seconds later:
    [1.001 * 1000] is [1000.9999999999999] in binary64, and the total is
    [1000]. *)
Example total_processing_time_one_second :
  let r := Pipeline.result
    (Pipeline.process Pipeline.example_time_clock Pipeline.example_utc_clock
       Pipeline.rejecting_authenticate Pipeline.unreachable_validate
       Pipeline.unreachable_process (py "pipeline_1")
       (PyStr (py "hello")) Pipeline.example_credentials None
       Pipeline.example_world).2 in
  Pipeline.started_at r = 0%Z
  ∧ Pipeline.completed_at r = Some 1001000%Z
  ∧ Pipeline.total_processing_time_ms r = 1000%Z.
Proof. by vm_compute. Qed.


(** * Further properties of the package *)

(** ** Permission resolution: algebra and edge cases *)
Section permission_algebra.
Import Authentication.
Implicit Types (A B cred user : list pystr) (p c x y : pystr).

Lemma in_expansion_mono A A' B B' p :
  (∀ q, q ∈ A → q ∈ A') → (∀ q, q ∈ B → q ∈ B') →
  in_expansion A B p → in_expansion A' B' p.
Proof.
  intros HA HB (c & Hc & Hcase). exists c. split; [by apply HA|].
  destruct Hcase as [(x & -> & Hp & Hpre)|?]; [|by right].
  left. exists x. auto.
Qed.

(** A prefix [y.] of the wildcard string [x.*] is already a prefix of [x.]. *)
Lemma wildcard_prefix_inner x y :
  (y ++ py ".") `prefix_of` (x ++ py ".*") → (y ++ py ".") `prefix_of` (x ++ py ".").
Proof.
  intros [k Hk]. destruct k as [|a k _] using rev_ind.
  - rewrite app_nil_r in Hk.
    change (py ".*") with ([46] ++ [42]) in Hk. change (py ".") with [46] in Hk.
    rewrite app_assoc in Hk. by apply app_inj_tail in Hk as [_ ?].
  - exists k. change (py ".*") with (py "." ++ [42]) in Hk.
    rewrite !app_assoc in Hk. by apply app_inj_tail in Hk as [Hk _].
Qed.

Lemma wildcard_dec c : (∃ x, c = x ++ py ".*") ∨ (∀ x, c ≠ x ++ py ".*").
Proof.
  destruct (strip_wildcard c) as [x|] eqn:Hs.
  - left. exists x. by apply strip_wildcard_Some.
  - right. by apply strip_wildcard_None.
Qed.

(** X1.  Resolving again against the same user permissions changes
    nothing: the granted list is a fixed point. *)
Theorem compute_final_permissions_idempotent A B :
  compute_final_permissions (compute_final_permissions A B) B
  = compute_final_permissions A B.
Proof.
  apply strict_sorted_ext; try apply compute_final_permissions_strict.
  intros p. rewrite (elem_of_compute_final_permissions (compute_final_permissions A B)).
  split.
  - intros [(c & Hc & Hcase) Hp].
    destruct Hcase as [(x & -> & _ & Hpre)|[_ ->]]; [|done].
    apply elem_of_compute_final_permissions in Hc as [(c' & Hc' & Hcase') _].
    apply elem_of_compute_final_permissions. split; [|done].
    destruct Hcase' as [(y & -> & _ & Hy)|[Hno Heq]]; [|by destruct (Hno x)].
    exists (y ++ py ".*"). split; [done|]. left. exists y.
    split; [done|]. split; [done|].
    by trans (x ++ py "."); [apply wildcard_prefix_inner|].
  - intros Hp. pose proof Hp as [_ HB]%elem_of_compute_final_permissions.
    split; [|done]. exists p. split; [done|].
    destruct (wildcard_dec p) as [[x ->]|Hno]; [|by right].
    left. exists x. split; [done|]. split; [done|].
    exists (py "*"). by rewrite <-app_assoc.
Qed.

(** X2.  Granting is monotone: more credential entries or more user
    permissions never remove a granted permission. *)
Theorem compute_final_permissions_monotone A A' B B' :
  (∀ q, q ∈ A → q ∈ A') →
  (∀ q, q ∈ B → q ∈ B') →
  ∀ p, p ∈ compute_final_permissions A B → p ∈ compute_final_permissions A' B'.
Proof.
  intros HA HB p [Hexp Hp]%elem_of_compute_final_permissions.
  apply elem_of_compute_final_permissions. split; [|by apply HB].
  by apply (in_expansion_mono A A' B B').
Qed.

Lemma compute_final_permissions_monotone_witness :
  py "chat" ∈ compute_final_permissions
                [py "chat"; py "tools.*"] [py "memory.read"; py "chat"].
Proof.
  apply (compute_final_permissions_monotone [py "chat"] [py "chat"; py "tools.*"]
           [py "chat"] [py "memory.read"; py "chat"]).
  - intros q ->%list_elem_of_singleton. by left.
  - intros q ->%list_elem_of_singleton. right. by left.
  - replace (compute_final_permissions [py "chat"] [py "chat"]) with [py "chat"]
      by by vm_compute.
    by left.
Defined.

(** X3.  Without wildcard entries the result is the plain intersection, and
    the two arguments can then be swapped. *)
Theorem compute_final_permissions_plain A B :
  (∀ c, c ∈ A → ∀ x, c ≠ x ++ py ".*") →
  (∀ c, c ∈ B → ∀ x, c ≠ x ++ py ".*") →
  (∀ p, p ∈ compute_final_permissions A B ↔ p ∈ A ∧ p ∈ B)
  ∧ compute_final_permissions A B = compute_final_permissions B A.
Proof.
  intros HA HB.
  assert (∀ C D, (∀ c, c ∈ C → ∀ x, c ≠ x ++ py ".*") →
            ∀ p, p ∈ compute_final_permissions C D ↔ p ∈ C ∧ p ∈ D) as Hplain.
  { intros C D HC p. rewrite elem_of_compute_final_permissions. split.
    - intros [(c & Hc & Hcase) Hp]. split; [|done].
      destruct Hcase as [(x & -> & _)|[_ ->]]; [|done]. by destruct (HC _ Hc x).
    - intros [Hc Hp]. split; [|done]. exists p. split; [done|].
      right. split; [|done]. by apply HC. }
  split; [by apply Hplain|].
  apply strict_sorted_ext; try apply compute_final_permissions_strict.
  intros p. rewrite (Hplain A B HA), (Hplain B A HB). tauto.
Qed.

Lemma compute_final_permissions_plain_witness :
  (∀ p, p ∈ compute_final_permissions [py "chat"; py "memory.read"] [py "chat"]
        ↔ p ∈ [py "chat"; py "memory.read"] ∧ p ∈ [py "chat"])
  ∧ compute_final_permissions [py "chat"; py "memory.read"] [py "chat"]
    = compute_final_permissions [py "chat"] [py "chat"; py "memory.read"].
Proof.
  apply compute_final_permissions_plain.
  - intros c Hc x Hx. apply (f_equal reverse) in Hx.
    rewrite reverse_app in Hx. change (reverse (py ".*")) with [42; 46] in Hx.
    apply elem_of_cons in Hc as [->|Hc]; [by vm_compute in Hx|].
    apply elem_of_cons in Hc as [->|Hc]; [by vm_compute in Hx|].
    by apply elem_of_nil in Hc.
  - intros c Hc x Hx. apply (f_equal reverse) in Hx.
    rewrite reverse_app in Hx. change (reverse (py ".*")) with [42; 46] in Hx.
    apply elem_of_cons in Hc as [->|Hc]; [by vm_compute in Hx|].
    by apply elem_of_nil in Hc.
Defined.

(** X4.  An empty credential list or an empty user list grants nothing, and
    the result is never longer than the user's list. *)
Theorem compute_final_permissions_bounds A B :
  compute_final_permissions [] B = []
  ∧ compute_final_permissions A [] = []
  ∧ (length (compute_final_permissions A B) ≤ length B)%nat.
Proof.
  split; [|split].
  - apply strict_sorted_ext; [apply compute_final_permissions_strict|constructor|].
    intros p. rewrite elem_of_compute_final_permissions. split.
    + intros [(c & Hc & _) _]. by apply elem_of_nil in Hc.
    + by intros ?%elem_of_nil.
  - apply strict_sorted_ext; [apply compute_final_permissions_strict|constructor|].
    intros p. rewrite elem_of_compute_final_permissions. split.
    + by intros [_ ?].
    + by intros ?%elem_of_nil.
  - apply submseteq_length, NoDup_submseteq.
    + apply strict_nodup, compute_final_permissions_strict.
    + by intros p [_ ?]%elem_of_compute_final_permissions.
Qed.

(** X5.  The expansion has no duplicates; it keeps every exact credential
    entry, held by the user or not; and a wildcard string is in it only if
    the user holds that very string. *)
Theorem expand_wildcards_entries cred user :
  NoDup (_expand_wildcards cred user)
  ∧ (∀ c, c ∈ cred → (∀ x, c ≠ x ++ py ".*") → c ∈ _expand_wildcards cred user)
  ∧ (∀ x, (x ++ py ".*") ∈ _expand_wildcards cred user → (x ++ py ".*") ∈ user).
Proof.
  split; [apply NoDup_elements|]. split.
  - intros c Hc Hno. apply elem_of_expand_wildcards. exists c. split; [done|]. by right.
  - intros x (c & Hc & Hcase)%elem_of_expand_wildcards.
    destruct Hcase as [(y & _ & Hu & _)|[Hno Heq]]; [done|].
    by destruct (Hno x).
Qed.

Lemma expand_wildcards_entries_witness :
  py "admin.health" ∈ _expand_wildcards [py "admin.health"; py "tools.*"] [py "chat"].
Proof.
  apply (proj1 (proj2 (expand_wildcards_entries
           [py "admin.health"; py "tools.*"] [py "chat"]))).
  - by left.
  - intros x Hx. apply (f_equal reverse) in Hx.
    rewrite reverse_app in Hx. change (reverse (py ".*")) with [42; 46] in Hx.
    by vm_compute in Hx.
Defined.
End permission_algebra.

(** ** Validation: outcomes of the detectors and size bounds *)
Section validation_outcomes.
Import Validation.
Implicit Types (d : gmap pystr PyVal) (s w t : pystr) (c : N).

(** X6.  The detected content type is always one of the five tags, and the
    detector raises exactly when the [text] key holds something that is
    not a string. *)
Theorem detect_content_type_outcomes d :
  (∀ t, _detect_content_type d = Returned t →
        t ∈ [py "command"; py "text_with_attachments"; py "text";
             py "file_upload"; py "unknown"])
  ∧ ((∃ e, _detect_content_type d = Raised e)
     ↔ ∃ v, d !! py "text" = Some v ∧ ∀ s, v ≠ PyStr s).
Proof.
  destruct (d !! py "text") as [v|] eqn:Ht.
  - assert ((∃ s, v = PyStr s) ∨ ¬ (∃ s, v = PyStr s)) as [[s ->]|Hns].
    { destruct v; try (right; by intros [? ?]). left. by eexists. }
    + rewrite (detect_content_type_str d s Ht). split.
      * intros t [= <-].
        destruct (leading_mark s); [by left|].
        destruct (py_in _ d); [right; by left|right; right; by left].
      * split; [by intros [e ?]|]. intros (v & [= <-] & Hv). by destruct (Hv s).
    + assert (∃ e, _detect_content_type d = Raised e) as [e He].
      { unfold _detect_content_type. rewrite Ht.
        destruct v; try (by eexists). destruct Hns. by eexists. }
      rewrite He. split; [done|]. split; [|by eexists].
      intros _. exists v. split; [done|]. intros s ->. destruct Hns. by eexists.
  - unfold _detect_content_type. rewrite Ht. split.
    + intros t. destruct (py_in _ d); intros [= <-].
      * do 3 right. by left.
      * do 4 right. by left.
    + split; [|by intros (v & ? & _)].
      destruct (py_in _ d); by intros [e ?].
Qed.

Lemma detect_content_type_outcomes_witness :
  py "file_upload" ∈ [py "command"; py "text_with_attachments"; py "text";
                      py "file_upload"; py "unknown"].
Proof.
  apply (proj1 (detect_content_type_outcomes {[ py "file" := PyBytes [37; 80] ]})).
  by vm_compute.
Defined.

Lemma utf8_encode_cp_raises c :
  (∃ e, utf8_encode_cp c = Raised e) ↔ (0xD800 ≤ c ≤ 0xDFFF ∨ 0x110000 ≤ c).
Proof.
  unfold utf8_encode_cp.
  destruct (c <? 128) eqn:H1.
  { apply N.ltb_lt in H1. split; [by intros [e ?]|lia]. }
  destruct (c <? 2048) eqn:H2.
  { apply N.ltb_lt in H2. split; [by intros [e ?]|lia]. }
  destruct ((55296 <=? c) && (c <=? 57343)) eqn:Hs.
  { apply andb_true_iff in Hs as [?%N.leb_le ?%N.leb_le].
    split; [intros _; left; lia|by eexists]. }
  apply andb_false_iff in Hs.
  destruct (c <? 65536) eqn:H3.
  { apply N.ltb_lt in H3. split; [by intros [e ?]|].
    intros [[??]|?]; [|lia]. destruct Hs as [?%N.leb_gt|?%N.leb_gt]; lia. }
  destruct (c <? 1114112) eqn:H4.
  { apply N.ltb_lt in H4. apply N.ltb_ge in H3. split; [by intros [e ?]|lia]. }
  apply N.ltb_ge in H4. split; [intros _; by right|by eexists].
Qed.

Lemma encode_utf8_raises s :
  (∃ e, encode_utf8 s = Raised e)
  ↔ Exists (λ c, 0xD800 ≤ c ≤ 0xDFFF ∨ 0x110000 ≤ c) s.
Proof.
  induction s as [|c s IH]; simpl.
  - split; [by intros [e ?]|by intros ?%Exists_nil].
  - rewrite Exists_cons, <-IH, <-utf8_encode_cp_raises.
    destruct (utf8_encode_cp c) as [b|e]; simpl.
    + destruct (encode_utf8 s) as [t|e]; simpl.
      * split; [by intros [e ?]|]. by intros [[e ?]|[e ?]].
      * split; [intros _; right; by eexists|by eexists].
    + split; [intros _; left; by eexists|by eexists].
Qed.

Lemma utf8_width_bounds c : (1 ≤ utf8_width c ≤ 4)%nat.
Proof. unfold utf8_width. repeat case_match; lia. Qed.

Lemma sum_widths_bounds s :
  (length s ≤ sum_list (utf8_width <$> s) ≤ 4 * length s)%nat.
Proof.
  induction s as [|c s IH]; [simpl; lia|].
  rewrite fmap_cons. pose proof (utf8_width_bounds c) as Hc.
  set (k := utf8_width c) in *. clearbody k.
  change (sum_list (k :: (utf8_width <$> s)))
    with (k + sum_list (utf8_width <$> s))%nat.
  simpl length. lia.
Qed.

Variable json_dumps_default_str : PyVal → Outcome pystr.
Variable py_str : PyVal → Outcome pystr.

(** X7.  The size of a string lies between its length and four times its
    length, and the computation raises exactly when the string holds a
    surrogate (or a value that is no code point). *)
Theorem calculate_input_size_str_bounds s :
  (∀ n, _calculate_input_size json_dumps_default_str py_str (PyStr s) = Returned n →
        (Z.of_nat (length s) ≤ n ≤ 4 * Z.of_nat (length s))%Z)
  ∧ ((∃ e, _calculate_input_size json_dumps_default_str py_str (PyStr s) = Raised e)
     ↔ Exists (λ c, 0xD800 ≤ c ≤ 0xDFFF ∨ 0x110000 ≤ c) s).
Proof.
  rewrite <-encode_utf8_raises. simpl.
  destruct (encode_utf8 s) as [bs|e] eqn:Hs; simpl.
  - split.
    + intros n [= <-]. unfold py_len. rewrite (encode_utf8_length s bs Hs).
      pose proof (sum_widths_bounds s). lia.
    + split; by intros [e ?].
  - split; [done|]. split; by eexists.
Qed.
End validation_outcomes.

Lemma calculate_input_size_str_bounds_witness :
  (Z.of_nat (length [0x48; 0xE9; 0x20AC]) ≤ 6
   ≤ 4 * Z.of_nat (length [0x48; 0xE9; 0x20AC]))%Z.
Proof.
  apply (proj1 (calculate_input_size_str_bounds
           (λ _, Returned (py "{}")) (λ _, Returned (py "None")) [0x48; 0xE9; 0x20AC])).
  by vm_compute.
Defined.

Section language.
Import Validation.
Variable py_lower : pystr → pystr.
Implicit Types (d : gmap pystr PyVal) (s w t : pystr).

Lemma py_contains_occurs t w : py_contains t w = true ↔ occurs w t.
Proof.
  induction t as [|a t IH]; simpl.
  - rewrite orb_false_r. unfold startswith. rewrite bool_decide_eq_true. split.
    + intros [k Hk]. exists [], k. done.
    + intros (pre & suf & Ht). destruct pre; [|done]. by exists suf.
  - rewrite orb_true_iff, IH. unfold startswith. rewrite bool_decide_eq_true. split.
    + intros [[k Hk]|(pre & suf & ->)].
      * by exists [], k.
      * by exists (a :: pre), suf.
    + intros (pre & suf & Ht). destruct pre as [|b pre].
      * left. by exists suf.
      * right. injection Ht as -> ->. by exists pre, suf.
Qed.

Lemma any_word_in_occurs s words :
  any_word_in py_lower s words = true ↔ ∃ w, w ∈ words ∧ occurs w (py_lower s).
Proof.
  unfold any_word_in. rewrite existsb_exists. split.
  - intros (w & Hw%list_elem_of_In & Hc%py_contains_occurs). by exists w.
  - intros (w & Hw%list_elem_of_In & Hc%py_contains_occurs). by exists w.
Qed.

(** X8.  Language detection answers [None], without raising, when the
    [text] key is missing or holds any false value; for a non-empty string
    it answers ["en"] or ["es"], and ["es"] exactly when the lower-cased
    text holds none of the English markers and one of the Spanish ones; a
    true value that is not a string makes it raise. *)
Theorem detect_language_outcomes d :
  (d !! py "text" = None → _detect_language py_lower d = Returned None)
  ∧ (∀ v, d !! py "text" = Some v → py_truthy v = false →
          _detect_language py_lower d = Returned None)
  ∧ (∀ s, d !! py "text" = Some (PyStr s) → s ≠ [] →
          (_detect_language py_lower d = Returned (Some (py "en"))
           ∨ _detect_language py_lower d = Returned (Some (py "es")))
          ∧ (_detect_language py_lower d = Returned (Some (py "es"))
             ↔ (∀ w, w ∈ [py "the"; py "and"; py "or"; py "but"] →
                     ¬ occurs w (py_lower s))
               ∧ ∃ w, w ∈ [py "el"; py "la"; py "y"; py "o"]
                      ∧ occurs w (py_lower s)))
  ∧ (∀ v, d !! py "text" = Some v → py_truthy v = true → (∀ s, v ≠ PyStr s) →
          ∃ e, _detect_language py_lower d = Raised e).
Proof.
  unfold _detect_language. split; [|split; [|split]].
  - by intros ->.
  - intros v -> Hv. simpl. by rewrite Hv.
  - intros s -> Hs. destruct s as [|a s]; [done|]. cbn -[any_word_in py].
    pose proof (any_word_in_occurs (a :: s) [py "the"; py "and"; py "or"; py "but"]) as Hen.
    pose proof (any_word_in_occurs (a :: s) [py "el"; py "la"; py "y"; py "o"]) as Hes.
    destruct (any_word_in py_lower (a :: s) [py "the"; py "and"; py "or"; py "but"]).
    + split; [by left|]. split; [by intros [=]|].
      intros [Hno _]. destruct (proj1 Hen eq_refl) as (w & Hw & Hocc).
      by destruct (Hno w Hw).
    + destruct (any_word_in py_lower (a :: s) [py "el"; py "la"; py "y"; py "o"]).
      * split; [by right|]. split; [|done]. intros _. split; [|by apply Hes].
        intros w Hw Hocc. assert (false = true) as [=]. apply Hen. by exists w.
      * split; [by left|]. split; [by intros [=]|].
        intros [_ Hsp]. by apply Hes in Hsp.
  - intros v -> Hv Hns. simpl. rewrite Hv. simpl.
    destruct v; try (by eexists). by destruct (Hns s).
Qed.
End language.

Lemma detect_language_outcomes_witness :
  Validation._detect_language (λ s, s) {[ py "text" := PyInt 0 ]} = Returned None.
Proof.
  apply (proj1 (proj2 (detect_language_outcomes (λ s, s) {[ py "text" := PyInt 0 ]}))
           (PyInt 0)).
  - by vm_compute.
  - reflexivity.
Defined.

(** ** Processing: text extraction, event context, identifiers *)
Section text_extraction.
Import Validation Processing.
Variable py_str : PyVal → Outcome pystr.
Variable class_name : pystr.
Implicit Types (d : gmap pystr PyVal) (s t fmt : pystr).

(** X9.  Text extraction follows the detected content type: a mapping typed
    [command], [text] or [text_with_attachments] yields exactly its text;
    a mapping typed [file_upload] or [unknown] yields a
    [text_extraction_error] naming the format; and a bare string is
    returned as it is. *)
Theorem extract_text_follows_content_type d fmt :
  (∀ t, _detect_content_type d = Returned t →
        t ∈ [py "command"; py "text"; py "text_with_attachments"] →
        ∃ s, d !! py "text" = Some (PyStr s)
             ∧ extract_text_from_format py_str class_name (PyDict d) fmt
               = Returned (Success s))
  ∧ (∀ t, _detect_content_type d = Returned t →
          t ∈ [py "file_upload"; py "unknown"] →
          ∃ err, extract_text_from_format py_str class_name (PyDict d) fmt
                 = Returned (Error err)
                 ∧ error_type err = py "text_extraction_error"
                 ∧ pe_content_type err = fmt
                 ∧ message err = py "Cannot extract text from format: " ++ fmt)
  ∧ (∀ s, extract_text_from_format py_str class_name (PyStr s) fmt
          = Returned (Success s)).
Proof.
  split; [|split; [|done]].
  - intros t Ht Htag. destruct (d !! py "text") as [v|] eqn:Hd.
    + destruct v as [| | |s| | |];
        try (unfold _detect_content_type in Ht; rewrite Hd in Ht; discriminate).
      exists s. split; [done|]. unfold extract_text_from_format. by rewrite Hd.
    + unfold _detect_content_type in Ht. rewrite Hd in Ht. exfalso.
      destruct (py_in _ d); injection Ht as <-;
        repeat (apply elem_of_cons in Htag as [Htag|Htag]; [by vm_compute in Htag|]);
        by apply elem_of_nil in Htag.
  - intros t Ht Htag. destruct (d !! py "text") as [v|] eqn:Hd.
    + exfalso. destruct v as [| | |s| | |];
        try (unfold _detect_content_type in Ht; rewrite Hd in Ht; discriminate).
      rewrite (detect_content_type_str d s Hd) in Ht. injection Ht as <-.
      destruct (leading_mark s); [|destruct (py_in _ d)];
        repeat (apply elem_of_cons in Htag as [Htag|Htag]; [by vm_compute in Htag|]);
        by apply elem_of_nil in Htag.
    + unfold extract_text_from_format. rewrite Hd. by eexists.
Qed.
End text_extraction.

Lemma extract_text_follows_content_type_witness :
  ∃ s, ({[ py "text" := PyStr (py "/help") ]} : gmap pystr PyVal) !! py "text"
       = Some (PyStr s)
       ∧ Processing.extract_text_from_format (λ _, Returned (py "None"))
           (py "TextNormalizer") (PyDict {[ py "text" := PyStr (py "/help") ]})
           (py "json")
         = Returned (Success s).
Proof.
  apply (proj1 (extract_text_follows_content_type (λ _, Returned (py "None"))
                  (py "TextNormalizer") {[ py "text" := PyStr (py "/help") ]}
                  (py "json")) (py "command")).
  - by vm_compute.
  - by left.
Defined.

Section event_context.
Import Models Authenticator Processing.
Implicit Types (pc : ProcessingContext) (k : pystr).

(** X10.  In the metadata of the event context every adapter entry is
    present unchanged, also under one of the three built-in keys, whose own
    value it then replaces; the built-in entries are there whenever the
    adapter does not use their key; there are no other keys; and the
    permissions are the granted ones. *)
Theorem event_context_metadata now pc :
  let ec := create_event_context now pc in
  (∀ k v, adapter_context pc !! k = Some v → ec_metadata ec !! k = Some (Plain v))
  ∧ (adapter_context pc !! py "processing_pipeline" = None →
     ec_metadata ec !! py "processing_pipeline"
     = Some (Plain (PyList (PyStr <$> processing_steps pc))))
  ∧ (adapter_context pc !! py "authentication_method" = None →
     ec_metadata ec !! py "authentication_method"
     = Some (Plain (default (PyStr (py "unknown"))
                      (auth_metadata (auth_context pc) !! py "method"))))
  ∧ (∀ k, is_Some (ec_metadata ec !! k)
          ↔ is_Some (adapter_context pc !! k)
            ∨ k ∈ [py "processing_pipeline"; py "authentication_method";
                   py "processing_time_ms"])
  ∧ ec_permissions ec = granted_permissions (auth_context pc).
Proof.
  intros ec. subst ec. unfold create_event_context. simpl.
  split; [|split; [|split; [|split; [|done]]]].
  - intros k v Hk. apply lookup_union_Some_l. by rewrite lookup_fmap, Hk.
  - intros Hk. rewrite lookup_union_r by (by rewrite lookup_fmap, Hk).
    by rewrite lookup_insert_eq.
  - intros Hk. rewrite lookup_union_r by (by rewrite lookup_fmap, Hk).
    rewrite lookup_insert_ne by (by vm_compute). by rewrite lookup_insert_eq.
  - intros k. rewrite lookup_union_is_Some, lookup_fmap, fmap_is_Some.
    rewrite !lookup_insert_is_Some', lookup_singleton_is_Some.
    rewrite !elem_of_cons, elem_of_nil. intuition (subst; auto).
Qed.

Lemma event_context_metadata_witness :
  ec_metadata
    (create_event_context 0%Z
       (create_processing_context 0%Z example_validated (example_auth None)
          (Some {[ py "processing_pipeline" := PyStr (py "slack") ]})))
    !! py "processing_pipeline"
  = Some (Plain (PyStr (py "slack"))).
Proof.
  apply (proj1 (event_context_metadata 0%Z
    (create_processing_context 0%Z example_validated (example_auth None)
       (Some {[ py "processing_pipeline" := PyStr (py "slack") ]})))).
  by vm_compute.
Defined.

(** X11.  The stream identifier of the event and the session identifier of
    its context come from the same two fields in opposite order.  They
    agree when exactly one of [stream_id] and [session_id] is a non-empty
    string; when both are, the event takes the stream and the context the
    session; when neither is, the event gets the derived identifier and the
    context the user id. *)
Theorem stream_and_session now uuid_event uuid_trace pc :
  let ids := generate_event_ids uuid_event uuid_trace pc in
  let ec := create_event_context now pc in
  (truthy (stream_id pc) ≠ truthy (session_id (auth_context pc)) →
   ids !! py "stream_id" = Some (ec_session_id ec))
  ∧ (∀ a b, stream_id pc = Some a → a ≠ [] →
            session_id (auth_context pc) = Some b → b ≠ [] →
            ids !! py "stream_id" = Some a ∧ ec_session_id ec = b)
  ∧ (truthy (stream_id pc) = false → truthy (session_id (auth_context pc)) = false →
     ids !! py "stream_id" = Some (py "stream_" ++ slice_first 8 uuid_event)
     ∧ ec_session_id ec = user_id (auth_context pc)).
Proof.
  intros ids ec. subst ids ec. rewrite generate_event_ids_stream.
  unfold create_event_context. cbn [ec_session_id].
  split; [|split].
  - destruct (stream_id pc) as [[|a s]|], (session_id (auth_context pc)) as [[|b s']|];
      simpl; intros Hne; first [reflexivity|congruence].
  - intros a b -> Ha -> Hb. destruct a; [done|]. by destruct b.
  - destruct (stream_id pc) as [[|a s]|], (session_id (auth_context pc)) as [[|b s']|];
      simpl; intros; first [by split|congruence].
Qed.

Lemma stream_and_session_witness :
  generate_event_ids example_uuid example_uuid
    (example_context (Some (py "thread-9")) None) !! py "stream_id"
  = Some (ec_session_id
            (create_event_context 0%Z (example_context (Some (py "thread-9")) None))).
Proof.
  apply (proj1 (stream_and_session 0%Z example_uuid example_uuid
                  (example_context (Some (py "thread-9")) None))).
  by vm_compute.
Defined.

(** X12.  On the path through [create_auth_context] and
    [create_processing_context] no session or stream identifier is ever
    set: the event's stream identifier is always the derived
    ["stream_"]-identifier, the context's session identifier is the user
    id, the recorded steps are authentication and validation, and the
    context carries the permissions that were passed in. *)
Theorem default_path_identifiers now1 now2 now3 uid credentials permissions
    auth_meta validated adapter uuid_event uuid_trace :
  let auth := create_auth_context now1 uid credentials permissions auth_meta in
  let pc := create_processing_context now2 validated auth adapter in
  let ec := create_event_context now3 pc in
  generate_event_ids uuid_event uuid_trace pc !! py "stream_id"
  = Some (py "stream_" ++ slice_first 8 uuid_event)
  ∧ ec_session_id ec = uid
  ∧ ec_permissions ec = permissions
  ∧ ec_source_type ec = sc_source_type credentials
  ∧ (adapter = None →
     ec_metadata ec !! py "processing_pipeline"
     = Some (Plain (PyList [PyStr (py "authentication"); PyStr (py "validation")]))).
Proof.
  intros auth pc ec. subst auth pc ec.
  rewrite generate_event_ids_stream.
  split; [done|]. split; [done|]. split; [done|]. split; [done|].
  intros ->. unfold create_event_context, create_processing_context. simpl.
  rewrite fmap_empty, (left_id_L ∅ (∪)). by rewrite lookup_insert_eq.
Qed.

Lemma default_path_identifiers_witness :
  ec_metadata
    (create_event_context 2%Z
       (create_processing_context 1%Z example_validated
          (create_auth_context 0%Z (py "user_123") Pipeline.example_credentials
             [py "chat"] ∅) None))
    !! py "processing_pipeline"
  = Some (Plain (PyList [PyStr (py "authentication"); PyStr (py "validation")])).
Proof.
  apply (proj2 (proj2 (proj2 (proj2
    (default_path_identifiers 0%Z 1%Z 2%Z (py "user_123") Pipeline.example_credentials
       [py "chat"] ∅ example_validated None example_uuid example_uuid))))).
  reflexivity.
Defined.
End event_context.

(** ** Capabilities: details, dependencies and missing requirements *)
Section provider_checks.
Import Models Capabilities.
Variable get_capabilities : list InputCapability.
Variable supports_capability : pystr → bool.
Implicit Types (name dep p : pystr) (c : InputCapability).

Lemma details_loop_Some caps name c :
  details_loop caps name = Some c
  ↔ ∃ pre post, caps = pre ++ c :: post ∧ cap_name c = name
                ∧ ∀ c', c' ∈ pre → cap_name c' ≠ name.
Proof.
  induction caps as [|a caps IH]; simpl.
  - split; [done|]. intros (pre & post & Heq & _). by destruct pre.
  - case_decide as Ha.
    + split.
      * intros [= <-]. exists [], caps. split; [done|]. split; [done|].
        by intros c' ?%elem_of_nil.
      * intros (pre & post & Heq & Hc & Hpre). destruct pre as [|b pre].
        -- by injection Heq as ->.
        -- injection Heq as <- _. destruct (Hpre a); [by left|done].
    + rewrite IH. split.
      * intros (pre & post & -> & Hc & Hpre). exists (a :: pre), post.
        split; [done|]. split; [done|].
        intros c' [->|?]%elem_of_cons; auto.
      * intros (pre & post & Heq & Hc & Hpre). destruct pre as [|b pre].
        -- injection Heq as <- _. by destruct Ha.
        -- injection Heq as <- ->. exists pre, post. split; [done|]. split; [done|].
           intros c' Hc'. apply Hpre. by right.
Qed.

Lemma details_loop_None caps name :
  details_loop caps name = None ↔ ∀ c, c ∈ caps → cap_name c ≠ name.
Proof.
  induction caps as [|a caps IH]; simpl.
  - split; [|done]. by intros _ c ?%elem_of_nil.
  - case_decide as Ha.
    + split; [done|]. intros Hall. destruct (Hall a); [by left|done].
    + rewrite IH. split.
      * intros Hall c [->|?]%elem_of_cons; auto.
      * intros Hall c Hc. apply Hall. by right.
Qed.

(** X13.  [get_capability_details] answers with the first capability of
    that name in the provider's list (a later one of the same name is never
    seen), and with [None] exactly when no capability has the name; the
    dependencies are those of that first capability, and none when the
    name is unknown. *)
Theorem get_capability_details_first name :
  (∀ c, get_capability_details get_capabilities name = Some c
        ↔ ∃ pre post, get_capabilities = pre ++ c :: post ∧ cap_name c = name
                      ∧ ∀ c', c' ∈ pre → cap_name c' ≠ name)
  ∧ (get_capability_details get_capabilities name = None
     ↔ ∀ c, c ∈ get_capabilities → cap_name c ≠ name)
  ∧ get_capability_dependencies get_capabilities name
    = match get_capability_details get_capabilities name with
      | Some c => cap_dependencies c
      | None => []
      end.
Proof.
  split; [|split; [|done]].
  - intros c. apply details_loop_Some.
  - apply details_loop_None.
Qed.

Lemma elem_of_dependencies_loop name deps missing p :
  p ∈ dependencies_loop supports_capability name deps missing
  ↔ p ∈ missing
    ∨ ∃ dep, dep ∈ deps ∧ supports_capability dep = false
             ∧ p = requires_entry name dep.
Proof.
  revert missing. induction deps as [|d deps IH]; intros missing; simpl.
  - split; [auto|]. intros [?|(dep & ?%elem_of_nil & _)]; done.
  - rewrite IH. destruct (supports_capability d) eqn:Hd.
    + split.
      * intros [?|(dep & Hdep & ?)]; [by left|].
        right. exists dep. split; [by right|done].
      * intros [?|(dep & [->|Hdep]%elem_of_cons & Hs & ?)]; [by left|congruence|].
        right. by exists dep.
    + rewrite elem_of_app, list_elem_of_singleton. split.
      * intros [[?| ->]|(dep & Hdep & ?)]; [by left| |].
        -- right. exists d. split; [by left|done].
        -- right. exists dep. split; [by right|done].
      * intros [?|(dep & [->|Hdep]%elem_of_cons & Hs & ->)]; [by left; left|by left; right|].
        right. by exists dep.
Qed.

Lemma elem_of_requirements_loop required missing p :
  p ∈ requirements_loop get_capabilities supports_capability required missing
  ↔ p ∈ missing
    ∨ (p ∈ required ∧ supports_capability p = false)
    ∨ ∃ name dep, name ∈ required ∧ supports_capability name = true
                  ∧ dep ∈ get_capability_dependencies get_capabilities name
                  ∧ supports_capability dep = false
                  ∧ p = requires_entry name dep.
Proof.
  revert missing. induction required as [|n required IH]; intros missing; simpl.
  - split; [auto|].
    intros [?|[[?%elem_of_nil _]|(name & dep & ?%elem_of_nil & _)]]; done.
  - destruct (supports_capability n) eqn:Hn; simpl; rewrite IH.
    + rewrite elem_of_dependencies_loop. split.
      * intros [[?|(dep & Hdep & Hs & ->)]|[[Hp Hs]|(name & dep & Hname & Hrest)]].
        -- by left.
        -- right; right. exists n, dep. split; [by left|done].
        -- right; left. split; [by right|done].
        -- right; right. exists name, dep. split; [by right|done].
      * intros [?|[[[->|Hp]%elem_of_cons Hs]|(name & dep & [->|Hname]%elem_of_cons & Hrest)]].
        -- by left; left.
        -- congruence.
        -- right; left. done.
        -- left; right. exists dep. tauto.
        -- right; right. by exists name, dep.
    + rewrite elem_of_app, list_elem_of_singleton. split.
      * intros [[?| ->]|[[Hp Hs]|(name & dep & Hname & Hrest)]].
        -- by left.
        -- right; left. split; [by left|done].
        -- right; left. split; [by right|done].
        -- right; right. exists name, dep. split; [by right|done].
      * intros [?|[[[->|Hp]%elem_of_cons Hs]|(name & dep & [->|Hname]%elem_of_cons & Hrest)]].
        -- by left; left.
        -- by left; right.
        -- right; left. done.
        -- destruct Hrest as [? _]. congruence.
        -- right; right. by exists name, dep.
Qed.

(** X14.  The list of missing capabilities holds exactly: each required
    capability the provider does not support, under its own name; and, for
    each supported one, an entry ["name (requires dep)"] for each of its
    direct dependencies the provider does not support.  It is empty exactly
    when every required capability and each of its direct dependencies is
    supported; dependencies of dependencies are not looked at. *)
Theorem validate_capability_requirements_missing required :
  (∀ p, p ∈ validate_capability_requirements get_capabilities supports_capability required
        ↔ (p ∈ required ∧ supports_capability p = false)
          ∨ ∃ name dep, name ∈ required ∧ supports_capability name = true
                        ∧ dep ∈ get_capability_dependencies get_capabilities name
                        ∧ supports_capability dep = false
                        ∧ p = requires_entry name dep)
  ∧ (validate_capability_requirements get_capabilities supports_capability required = []
     ↔ ∀ name, name ∈ required →
               supports_capability name = true
               ∧ ∀ dep, dep ∈ get_capability_dependencies get_capabilities name →
                        supports_capability dep = true).
Proof.
  assert (∀ p, p ∈ validate_capability_requirements get_capabilities
                     supports_capability required
               ↔ (p ∈ required ∧ supports_capability p = false)
                 ∨ ∃ name dep, name ∈ required ∧ supports_capability name = true
                     ∧ dep ∈ get_capability_dependencies get_capabilities name
                     ∧ supports_capability dep = false
                     ∧ p = requires_entry name dep) as Hmem.
  { intros p. unfold validate_capability_requirements.
    rewrite elem_of_requirements_loop. split; [|auto].
    by intros [?%elem_of_nil|?]. }
  split; [done|]. split.
  - intros Hnil name Hname.
    destruct (supports_capability name) eqn:Hs.
    + split; [done|]. intros dep Hdep.
      destruct (supports_capability dep) eqn:Hd; [done|]. exfalso.
      apply (elem_of_nil (requires_entry name dep)). rewrite <-Hnil.
      apply Hmem. right. by exists name, dep.
    + exfalso. apply (elem_of_nil name). rewrite <-Hnil. apply Hmem. by left.
  - intros Hall.
    destruct (validate_capability_requirements _ _ required) as [|p l] eqn:Hv; [done|].
    exfalso. assert (p ∈ p :: l) as Hp by by left.
    apply Hmem in Hp as [[Hp Hs]|(name & dep & Hname & _ & Hdep & Hs & _)].
    + destruct (Hall p Hp) as [? _]. congruence.
    + destruct (Hall name Hname) as [_ Hd]. specialize (Hd dep Hdep). congruence.
Qed.
End provider_checks.

(** ** Pipeline: health report and what the stage helpers leave alone *)
Section health_report.
Import Pipeline.
Implicit Types (m : gmap pystr bool) (k j prefix : pystr).

Lemma prefixed_lookup prefix m k : prefixed prefix m !! (prefix ++ k) = m !! k.
Proof. unfold prefixed. apply (lookup_kmap (λ k, prefix ++ k)). Qed.

Lemma prefixed_other prefix m j : (∀ k, j ≠ prefix ++ k) → prefixed prefix m !! j = None.
Proof.
  intros Hj. unfold prefixed. apply (lookup_kmap_None (λ k, prefix ++ k)).
  intros k Hk. by destruct (Hj k).
Qed.

(** X15.  In the health report no component's entry is lost to another's:
    the [authenticator] entry is the authenticator's answer ([False] if it
    raised); each entry [k] of the validator's report is found under
    [validator_k] and each entry of the processor's under [processor_k]; a
    validator or processor whose check raised is reported as [False] under
    its bare name. *)
Theorem health_check_entries authenticator_health validator_health processor_health :
  let h := health_check authenticator_health validator_health processor_health in
  h !! py "authenticator"
  = Some (match authenticator_health with Returned b => b | Raised _ => false end)
  ∧ (∀ m k v, validator_health = Returned m → m !! k = Some v →
              h !! (py "validator_" ++ k) = Some v)
  ∧ (∀ e, validator_health = Raised e → h !! py "validator" = Some false)
  ∧ (∀ m k v, processor_health = Returned m → m !! k = Some v →
              h !! (py "processor_" ++ k) = Some v)
  ∧ (∀ e, processor_health = Raised e → h !! py "processor" = Some false).
Proof.
  intros h. subst h. unfold health_check.
  assert (∀ m, prefixed (py "processor_") m !! py "authenticator" = None) as Hpa.
  { intros m. apply prefixed_other. intros k Hk. vm_compute in Hk. discriminate. }
  assert (∀ m, prefixed (py "validator_") m !! py "authenticator" = None) as Hva.
  { intros m. apply prefixed_other. intros k Hk. vm_compute in Hk. discriminate. }
  assert (∀ m, prefixed (py "processor_") m !! py "validator" = None) as Hpv.
  { intros m. apply prefixed_other. intros k Hk. vm_compute in Hk. discriminate. }
  assert (∀ m k, prefixed (py "processor_") m !! (py "validator_" ++ k) = None) as Hpvk.
  { intros m k. apply prefixed_other. intros k' Hk. vm_compute in Hk. discriminate. }
  split; [|split; [|split; [|split]]].
  - destruct processor_health as [pm|pe];
      [rewrite lookup_union_r by apply Hpa|rewrite lookup_insert_ne by (by vm_compute)];
      (destruct validator_health as [vm|ve];
       [rewrite lookup_union_r by apply Hva|rewrite lookup_insert_ne by (by vm_compute)]);
      destruct authenticator_health as [b|ae]; by rewrite lookup_insert_eq.
  - intros m k v -> Hk.
    destruct processor_health as [pm|pe].
    + rewrite lookup_union_r by done. apply lookup_union_Some_l.
      by rewrite prefixed_lookup.
    + rewrite lookup_insert_ne by (intros Heq; vm_compute in Heq; discriminate).
      apply lookup_union_Some_l. by rewrite prefixed_lookup.
  - intros e ->. destruct processor_health as [pm|pe].
    + rewrite lookup_union_r by done. by rewrite lookup_insert_eq.
    + rewrite lookup_insert_ne by (by vm_compute). by rewrite lookup_insert_eq.
  - intros m k v -> Hk. apply lookup_union_Some_l. by rewrite prefixed_lookup.
  - intros e ->. by rewrite lookup_insert_eq.
Qed.
End health_report.

Lemma health_check_entries_witness :
  Pipeline.health_check (Returned true)
    (Returned {[ py "format_validator" := true; py "safety_validator" := true ]})
    (Raised (mkExc (py "RuntimeError") (py "down")))
    !! (py "validator_" ++ py "safety_validator")
  = Some true.
Proof.
  apply (proj1 (proj2 (health_check_entries (Returned true)
    (Returned {[ py "format_validator" := true; py "safety_validator" := true ]})
    (Raised (mkExc (py "RuntimeError") (py "down")))))
    {[ py "format_validator" := true; py "safety_validator" := true ]}).
  - reflexivity.
  - by vm_compute.
Defined.

Section stage_frames.
Import Models Pipeline.
Variable time_clock : TimeClock.
Variable authenticate :
  SourceCredentials → gmap pystr PyVal → Outcome (Result AuthContext StageError).
Variable validate : PyVal → AuthContext → Outcome (Result ValidatedInput StageError).
Variable processor_process :
  ValidatedInput → AuthContext → Outcome (Result JanusEvent StageError).

Lemma after_stage_frame name t ok r : stage_frame name r (after_stage name t ok r).
Proof.
  unfold stage_frame, after_stage. simpl. repeat split; try done.
  intros k Hk. by rewrite lookup_insert_ne.
Qed.

(** X16.  A stage helper never marks the run: it leaves [event], [success],
    [error], the total time, the processing context, the pipeline id and
    both timestamps of the result as they were, and touches no other
    stage's timing; its own timing is the difference of its two clock
    readings, times [1000.0], in binary64, truncated to an integer. *)
Theorem stage_helpers_frame w :
  (∀ credentials request_context,
     let w' := (execute_authentication_stage time_clock authenticate
                  credentials request_context w).2 in
     stage_frame (py "authentication") (result w) (result w')
     ∧ stage_timings (result w') !! py "authentication"
       = Some (float_trunc
                 (PrimFloat.mul
                    (PrimFloat.sub (time_clock (S (ticks w))) (time_clock (ticks w)))
                    FloatLiterals.thousand)))
  ∧ (∀ raw_input auth_context,
       let w' := (execute_validation_stage time_clock validate
                    raw_input auth_context w).2 in
       stage_frame (py "validation") (result w) (result w')
       ∧ stage_timings (result w') !! py "validation"
         = Some (float_trunc
                   (PrimFloat.mul
                      (PrimFloat.sub (time_clock (S (ticks w))) (time_clock (ticks w)))
                      FloatLiterals.thousand)))
  ∧ (∀ validated_input auth_context,
       let w' := (execute_processing_stage time_clock processor_process
                    validated_input auth_context w).2 in
       stage_frame (py "processing") (result w) (result w')
       ∧ stage_timings (result w') !! py "processing"
         = Some (float_trunc
                   (PrimFloat.mul
                      (PrimFloat.sub (time_clock (S (ticks w))) (time_clock (ticks w)))
                      FloatLiterals.thousand))).
Proof.
  split; [|split].
  - intros credentials request_context w'. subst w'.
    rewrite execute_authentication_stage_world. simpl.
    split; [apply after_stage_frame|by rewrite lookup_insert_eq].
  - intros raw_input auth_context w'. subst w'.
    rewrite execute_validation_stage_world. simpl.
    split; [apply after_stage_frame|by rewrite lookup_insert_eq].
  - intros validated_input auth_context w'. subst w'.
    rewrite execute_processing_stage_world. simpl.
    split; [apply after_stage_frame|by rewrite lookup_insert_eq].
Qed.
End stage_frames.

Lemma stage_helpers_frame_witness :
  Pipeline.stage_timings
    (Pipeline.result
       (Pipeline.execute_authentication_stage Pipeline.example_time_clock
          Pipeline.rejecting_authenticate Pipeline.example_credentials ∅
          Pipeline.example_world).2)
  !! py "authentication" = Some 9%Z.
Proof.
  exact (proj2 (proj1 (stage_helpers_frame Pipeline.example_time_clock
                         Pipeline.rejecting_authenticate Pipeline.unreachable_validate
                         Pipeline.unreachable_process Pipeline.example_world)
                  Pipeline.example_credentials ∅)).
Defined.

Lemma validate_capability_requirements_missing_witness :
  Capabilities.validate_capability_requirements Capabilities.example_capabilities
    Capabilities.example_supports [py "file_attachments"] = [].
Proof.
  apply (proj2 (proj2 (validate_capability_requirements_missing
           Capabilities.example_capabilities Capabilities.example_supports
           [py "file_attachments"]))).
  intros name ->%list_elem_of_singleton. split; [reflexivity|].
  intros dep Hdep. vm_compute in Hdep. apply list_elem_of_singleton in Hdep as ->.
  reflexivity.
Defined.

Section preference.
Import Capabilities.
Variable find_providers_with_capability : pystr → list pystr.
Implicit Types (required pl : list pystr) (q : pystr).

(** X17.  A preference that names no provider able to meet the
    requirements is ignored: the answer is the one given without any
    preference. *)
Theorem find_best_provider_preference_ignored required pl :
  (∀ q, q ∈ pl → ¬ supports_all find_providers_with_capability required q) →
  find_best_provider_for_requirements find_providers_with_capability required (Some pl)
  = find_best_provider_for_requirements find_providers_with_capability required None.
Proof.
  intros Hpl. unfold find_best_provider_for_requirements.
  pose proof (candidates_loop_None find_providers_with_capability required) as Hloop.
  destruct (candidates_loop find_providers_with_capability required None) as [c|];
    [|done]. simpl.
  destruct Hloop as [_ Hc]. case_bool_decide; [done|].
  destruct pl as [|q0 pl]; [done|]. simpl.
  rewrite bool_decide_eq_true_2; [done|].
  apply leibniz_equiv, elem_of_equiv_empty. intros q [Hq Hin]%elem_of_intersection.
  apply (Hpl q); [|by apply Hc].
  exact (proj1 (elem_of_list_to_set q (q0 :: pl)) Hin).
Qed.
End preference.

Lemma find_best_provider_preference_ignored_witness :
  Capabilities.find_best_provider_for_requirements Capabilities.example_registry
    [py "threading"] (Some [py "api"])
  = Capabilities.find_best_provider_for_requirements Capabilities.example_registry
      [py "threading"] None.
Proof.
  apply find_best_provider_preference_ignored.
  intros q ->%list_elem_of_singleton Hs.
  specialize (Hs (py "threading")). 
  assert (py "api" ∈ Capabilities.example_registry (py "threading")) as Hin.
  { apply Hs. by left. }
  vm_compute in Hin. apply list_elem_of_singleton in Hin. discriminate.
Defined.
